(** * Property discovery and engagement: search, view tracking, inquiries

    A shallow embedding of [properties/views.py]: the [PropertyViewSet]
    handlers [get_queryset], [track_view], [inquire] and [get_client_ip],
    together with the parts of Python and of the web framework those
    handlers call (dictionary lookups, [str.split], query-set filtering,
    [get_object], [get_or_create], the ordering backend and serializer
    validation).  Handlers are functions of the request in a state and
    exception monad over the store; the models and the serializer, which
    are declared outside [views.py], enter through [Config] and through
    records modelled from the specification. *)

From Stdlib Require Import QArith Ascii String.
From stdpp Require Import base option list strings gmap sorting.

Local Open Scope string_scope.

(** ** Python values *)

Module Py.

(** [bool(s)] for a value that is [None] or a [str]. *)
Definition truthy (o : option string) : bool :=
  match o with
  | Some (String _ _) => true
  | _ => false
  end.

(** [s.split(sep)] for a one-character separator: every occurrence of
    [sep] cuts, so the result always has at least one element. *)
Fixpoint split (sep : ascii) (s : string) : list string :=
  match s with
  | EmptyString => [EmptyString]
  | String c rest =>
      if Ascii.eqb c sep then EmptyString :: split sep rest
      else match split sep rest with
           | w :: ws => String c w :: ws
           | [] => [String c EmptyString]
           end
  end.

(** [c in s] for a character. *)
Fixpoint contains (c : ascii) (s : string) : bool :=
  match s with
  | EmptyString => false
  | String d rest => Ascii.eqb d c || contains c rest
  end.

Definition is_space (c : ascii) : bool :=
  let n := nat_of_ascii c in
  (n =? 32)%nat || ((9 <=? n)%nat && (n <=? 13)%nat)
  || ((28 <=? n)%nat && (n <=? 31)%nat).

Fixpoint lstrip (s : string) : string :=
  match s with
  | String c rest => if is_space c then lstrip rest else s
  | EmptyString => EmptyString
  end.

Fixpoint rstrip (s : string) : string :=
  match s with
  | EmptyString => EmptyString
  | String c rest =>
      match rstrip rest with
      | EmptyString => if is_space c then EmptyString else String c EmptyString
      | r => String c r
      end
  end.

(** [s.strip()] *)
Definition strip (s : string) : string := rstrip (lstrip s).

(** [s.startswith("-")] and [s[1:]] *)
Definition startswith_dash (s : string) : bool :=
  match s with
  | String c _ => Ascii.eqb c "-"
  | EmptyString => false
  end.

Definition tail1 (s : string) : string :=
  match s with
  | String _ rest => rest
  | EmptyString => EmptyString
  end.

End Py.

(** ** Data model *)

(** Modelled from the spec: the [Property] model is declared in
    [properties/models.py], which is not among the sources.  The view only
    touches the primary key, [is_available], [price] and [area]; numeric
    columns are rationals, which cover integer and decimal columns. *)
Record Property := {
  id : Z;
  title : string;
  price : Q;
  area : Q;
  rating : Q;
  is_available : bool;
  created_at : Z;
}.

(** Modelled from the spec: [PropertyView], one row per observed
    (property, visitor address) pair with the user agent captured at
    creation.  The address is part of the row's identity, hence never
    null. *)
Record PropertyView := {
  view_property : Z;
  ip_address : string;
  user_agent : string;
}.

(** Modelled from the spec: [PropertyInquiry]; [inquiry_fields] holds the
    inquirer-supplied columns (contact details, message). *)
Record PropertyInquiry := {
  inquiry_id : Z;
  inquiry_property : Z;
  inquiry_status : string;
  inquiry_created_at : Z;
  inquiry_fields : gmap string string;
}.

(** The persistent store shared by all requests. *)
Record Store := {
  properties : list Property;
  views : list PropertyView;
  inquiries : list PropertyInquiry;
  inquiry_seq : Z;
}.

(** What a handler reads of a request: the primary key of the URL, the
    query string ([query_params.get] answers the value of a key, the last
    one when it is repeated), the server's [META] dictionary with the
    headers, and the submitted data. *)
Record Request := {
  kwargs_pk : Z;
  query_params : gmap string string;
  META : gmap string string;
  data : gmap string string;
}.

(** ** Exceptions, responses and the handler monad *)

(** [FieldValueError] stands for what a column raises on a lookup value
    it cannot read; [ValidationError] is what a filter backend may raise
    on its own parameters. *)
Inductive Exception :=
| Http404
| FieldValueError (lookup raw : string)
| ValidationError (detail : gmap string (list string))
| DoesNotExist
| MultipleObjectsReturned
| IntegrityError.

Inductive Payload :=
| PDict (d : gmap string string)
| PInquiry (i : PropertyInquiry)
| PErrors (e : gmap string (list string)).

Record Response := {
  payload : Payload;
  status : Z;
}.

Definition HTTP_200_OK : Z := 200.
Definition HTTP_201_CREATED : Z := 201.
Definition HTTP_400_BAD_REQUEST : Z := 400.

(** A handler reads and writes the store and either returns or raises.
    The store is threaded through failures too, so that "nothing was
    written" is a property to be proved, not an artefact of the type. *)
Definition View (A : Type) : Type := Store -> (Exception + A) * Store.

Definition ret {A} (a : A) : View A := fun st => (inr a, st).
Definition raise {A} (e : Exception) : View A := fun st => (inl e, st).
Definition bind {A B} (m : View A) (k : A -> View B) : View B :=
  fun st =>
    match m st with
    | (inr a, st') => k a st'
    | (inl e, st') => (inl e, st')
    end.
Definition lift {A} (r : Exception + A) : View A := fun st => (r, st).
Definition get_store : View Store := fun st => (inr st, st).
Definition put_store (st' : Store) : View unit := fun _ => (inr tt, st').

Declare Scope view_scope.
Delimit Scope view_scope with view.
Notation "x <- m ;; k" := (bind m (fun x => k))
  (at level 100, m at next level, right associativity) : view_scope.
Notation "m ;;; k" := (bind m (fun _ => k))
  (at level 100, right associativity) : view_scope.

(** Pure exception-or-value computations (query-set construction). *)
Definition ebind {A B} (r : Exception + A) (k : A -> Exception + B)
  : Exception + B :=
  match r with
  | inr a => k a
  | inl e => inl e
  end.

(** [try: m except <class>: h], the class given by its membership test. *)
Definition try_except {A} (m : View A) (caught : Exception -> bool)
  (h : Exception -> View A) : View A :=
  fun st =>
    match m st with
    | (inl e, st') => if caught e then h e st' else (inl e, st')
    | r => r
    end.

Definition is_DoesNotExist (e : Exception) : bool :=
  match e with DoesNotExist => true | _ => false end.

Definition is_IntegrityError (e : Exception) : bool :=
  match e with IntegrityError => true | _ => false end.

(** ** Framework pieces configured by the view set *)

(** A filter backend maps the request and a query set to a narrower (or
    reordered) query set, or raises.  The exact-match backend (configured
    by [filterset_fields]) and the text-search backend (configured by
    [search_fields]) are kept abstract behind this interface. *)
Record FilterBackend := {
  backend_filter : Request -> list Property -> Exception + list Property;
  backend_narrows :
    forall r qs qs', backend_filter r qs = inr qs' -> qs' ⊆+ qs;
}.

(** One declared field of a serializer: its name, whether it is
    required, and its own conversion and validators, which answer with
    the validated value or with that field's error messages. *)
Record SerializerField := {
  field_name : string;
  required : bool;
  to_internal_value : string -> list string + string;
}.

Inductive FieldOutcome :=
| Valid (v : string)
| Invalid (messages : list string)
| SkipField.

(** [Field.run_validation]: a missing value fails a required field and
    skips an optional one; a present value goes through the field's own
    conversion. *)
Definition run_validation (f : SerializerField) (v : option string)
  : FieldOutcome :=
  match v with
  | None =>
      if required f then Invalid ["This field is required."] else SkipField
  | Some s =>
      match to_internal_value f s with
      | inl messages => Invalid messages
      | inr x => Valid x
      end
  end.

(** [Serializer.to_internal_value]: every declared field is validated,
    the failures are collected per field name into [errors] and the
    successes into the validated data; nothing stops at the first
    failure. *)
Fixpoint validate_fields (fields : list SerializerField)
  (d : gmap string string)
  (errors : gmap string (list string)) (validated : gmap string string)
  : gmap string (list string) * gmap string string :=
  match fields with
  | [] => (errors, validated)
  | f :: rest =>
      match run_validation f (d !! field_name f) with
      | Valid x =>
          validate_fields rest d errors (<[field_name f := x]> validated)
      | Invalid messages =>
          validate_fields rest d (<[field_name f := messages]> errors) validated
      | SkipField => validate_fields rest d errors validated
      end
  end.

(** A bound serializer after [is_valid()] has run. *)
Record Serializer := {
  errors : gmap string (list string);
  validated_data : gmap string string;
}.

Definition make_serializer (fields : list SerializerField)
  (d : gmap string string) : Serializer :=
  let '(e, v) := validate_fields fields d ∅ ∅ in
  {| errors := e; validated_data := v |}.

(** [serializer.is_valid()] is [not bool(errors)]. *)
Definition is_valid (s : Serializer) : bool :=
  bool_decide (errors s = ∅).

(** [OrderingFilter.remove_invalid_fields] *)
Definition term_valid (valid_fields : list string) (term : string) : bool :=
  let term := if Py.startswith_dash term then Py.tail1 term else term in
  bool_decide (term ∈ valid_fields).

Definition remove_invalid_fields (valid_fields fields : list string)
  : list string :=
  List.filter (term_valid valid_fields) fields.

(** [OrderingFilter.get_ordering]: the comma-separated [ordering]
    parameter is stripped term by term and reduced to its valid terms;
    when the parameter is absent, empty, or nothing valid remains, the
    view's default ordering is used. *)
Definition get_ordering (valid_fields default_ordering : list string)
  (params : gmap string string) : list string :=
  match params !! "ordering" with
  | Some (String _ _ as p) =>
      let fields := map Py.strip (Py.split "," p) in
      match remove_invalid_fields valid_fields fields with
      | [] => default_ordering
      | o => o
      end
  | _ => default_ordering
  end.

(** [queryset.order_by(...)]: the database's sort, kept abstract; it
    reorders and neither adds nor drops rows. *)
Record OrderBy := {
  order_by : list string -> list Property -> list Property;
  order_by_perm : forall o qs, order_by o qs ≡ₚ qs;
}.

(** [queryset.filter(<column>__<op>=raw)]: the raw value is coerced by the
    column when the lookup is built, and a value the column cannot read
    raises there and then. *)
Definition filter_lookup (lookup : string) (column : Property -> Q)
  (op : Q -> Q -> bool) (to_python : string -> option Q)
  (raw : string) (qs : list Property) : Exception + list Property :=
  match to_python raw with
  | Some v => inr (List.filter (fun p => op (column p) v) qs)
  | None => inl (FieldValueError lookup raw)
  end.

Definition gte (x v : Q) : bool := Qle_bool v x.
Definition lte (x v : Q) : bool := Qle_bool x v.

(** Modelled from the spec: the starting state of an inquiry, the
    default of the model's status column. *)
Definition default_status : string := "submitted".

(** What the declarations outside [properties/views.py] and the framework
    supply to the view set: the two numeric columns' coercions from a
    query-string value, the stock exact-match and text-search backends,
    the database sort, the writable fields declared by
    [PropertyInquirySerializer], and whether the [PropertyView] table
    declares (property, ip_address) unique. *)
Record Config := {
  price_to_python : string -> option Q;
  area_to_python : string -> option Q;
  DjangoFilterBackend : FilterBackend;
  SearchFilter : FilterBackend;
  db_sort : OrderBy;
  PropertyInquirySerializer : list SerializerField;
  unique_together : bool;
}.

(** ** The view set *)

Section PropertyViewSet.

Variable cfg : Config.

Definition ordering_fields : list string :=
  ["price"; "created_at"; "rating"; "area"].
Definition ordering : list string := ["-created_at"].

(** [OrderingFilter.filter_queryset] *)
Definition OrderingFilter (r : Request) (qs : list Property)
  : Exception + list Property :=
  match get_ordering ordering_fields ordering (query_params r) with
  | [] => inr qs
  | o => inr (order_by (db_sort cfg) o qs)
  end.

Definition filter_backends
  : list (Request -> list Property -> Exception + list Property) :=
  [backend_filter (DjangoFilterBackend cfg); backend_filter (SearchFilter cfg);
   OrderingFilter].

(** [GenericAPIView.filter_queryset]: the backends in declared order. *)
Definition filter_queryset (r : Request) (qs : list Property)
  : Exception + list Property :=
  foldl (fun acc backend => ebind acc (backend r)) (inr qs) filter_backends.

Definition get_queryset (request : Request) : View (list Property) :=
  (st <- get_store ;;
   let queryset := List.filter is_available (properties st) in
   let min_price := query_params request !! "min_price" in
   let max_price := query_params request !! "max_price" in
   queryset <- lift
     (if Py.truthy min_price
      then filter_lookup "price__gte" price gte (price_to_python cfg)
             (default "" min_price) queryset
      else inr queryset) ;;
   queryset <- lift
     (if Py.truthy max_price
      then filter_lookup "price__lte" price lte (price_to_python cfg)
             (default "" max_price) queryset
      else inr queryset) ;;
   let min_area := query_params request !! "min_area" in
   let max_area := query_params request !! "max_area" in
   queryset <- lift
     (if Py.truthy min_area
      then filter_lookup "area__gte" area gte (area_to_python cfg)
             (default "" min_area) queryset
      else inr queryset) ;;
   queryset <- lift
     (if Py.truthy max_area
      then filter_lookup "area__lte" area lte (area_to_python cfg)
             (default "" max_area) queryset
      else inr queryset) ;;
   ret queryset)%view.

(** The list action: the search results are the view's query set run
    through the filter backends (pagination aside). *)
Definition list_action (request : Request) : View (list Property) :=
  (queryset <- get_queryset request ;;
   lift (filter_queryset request queryset))%view.

(** [get_object_or_404(queryset, pk=pk)] *)
Definition get_object_or_404 (queryset : list Property) (pk : Z)
  : View Property :=
  match List.filter (fun p => (id p =? pk)%Z) queryset with
  | [] => raise Http404
  | [obj] => ret obj
  | _ => raise MultipleObjectsReturned
  end.

(** [GenericAPIView.get_object] *)
Definition get_object (request : Request) : View Property :=
  (queryset <- get_queryset request ;;
   queryset <- lift (filter_queryset request queryset) ;;
   get_object_or_404 queryset (kwargs_pk request))%view.

(** [None] is the answer of [META.get('REMOTE_ADDR')] on a request
    without that key; element 0 of a split always exists. *)
Definition get_client_ip (request : Request) : option string :=
  let x_forwarded_for := META request !! "HTTP_X_FORWARDED_FOR" in
  if Py.truthy x_forwarded_for
  then Py.split "," (default "" x_forwarded_for) !! 0%nat
  else META request !! "REMOTE_ADDR".

Definition same_visitor (pk : Z) (ip : string) (v : PropertyView) : bool :=
  (view_property v =? pk)%Z && String.eqb (ip_address v) ip.

(** [PropertyView.objects.get(property=..., ip_address=...)] *)
Definition views_get (pk : Z) (ip : option string) : View PropertyView :=
  (st <- get_store ;;
   match ip with
   | None => raise DoesNotExist
   | Some a =>
       match List.filter (same_visitor pk a) (views st) with
       | [] => raise DoesNotExist
       | [v] => ret v
       | _ => raise MultipleObjectsReturned
       end
   end)%view.

(** [PropertyView.objects.create(...)]: one atomic insert, refused by
    the store when the address is null or when the table's uniqueness
    declaration would be violated. *)
Definition views_create (pk : Z) (ip : option string) (ua : string)
  : View PropertyView :=
  (st <- get_store ;;
   match ip with
   | None => raise IntegrityError
   | Some a =>
       if unique_together cfg && existsb (same_visitor pk a) (views st)
       then raise IntegrityError
       else
         let v := {| view_property := pk; ip_address := a;
                     user_agent := ua |} in
         put_store {| properties := properties st;
                      views := views st ++ [v];
                      inquiries := inquiries st;
                      inquiry_seq := inquiry_seq st |} ;;;
         ret v
   end)%view.

(** [QuerySet.get_or_create] *)
Definition get_or_create (pk : Z) (ip : option string) (ua : string)
  : View (PropertyView * bool) :=
  try_except
    (v <- views_get pk ip ;; ret (v, false))%view
    is_DoesNotExist
    (fun _ =>
       try_except
         (v <- views_create pk ip ua ;; ret (v, true))%view
         is_IntegrityError
         (fun e =>
            try_except
              (v <- views_get pk ip ;; ret (v, false))%view
              is_DoesNotExist
              (fun _ => raise e))).

Definition track_view (request : Request) : View Response :=
  (property_obj <- get_object request ;;
   let ip_address := get_client_ip request in
   let user_agent := default "" (META request !! "HTTP_USER_AGENT") in
   get_or_create (id property_obj) ip_address user_agent ;;;
   ret {| payload := PDict {[ "status" := "view tracked" ]};
          status := HTTP_200_OK |})%view.

(** [serializer.save(property=property_obj)]: the model's [create] with
    the validated data and the bound listing; the key and the
    timestamp are assigned by the store. *)
Definition save (now : Z) (s : Serializer) (property_obj : Property)
  : View PropertyInquiry :=
  (st <- get_store ;;
   let instance :=
     {| inquiry_id := inquiry_seq st + 1;
        inquiry_property := id property_obj;
        inquiry_status :=
          default default_status (validated_data s !! "status");
        inquiry_created_at := now;
        inquiry_fields := delete "status" (validated_data s) |} in
   put_store {| properties := properties st;
                views := views st;
                inquiries := inquiries st ++ [instance];
                inquiry_seq := inquiry_seq st + 1 |} ;;;
   ret instance)%view.

Definition inquire (now : Z) (request : Request) : View Response :=
  (property_obj <- get_object request ;;
   let serializer :=
     make_serializer (PropertyInquirySerializer cfg) (data request) in
   if is_valid serializer
   then
     instance <- save now serializer property_obj ;;
     ret {| payload := PInquiry instance; status := HTTP_201_CREATED |}
   else
     ret {| payload := PErrors (errors serializer);
            status := HTTP_400_BAD_REQUEST |})%view.

(** *** Interleaved callers

    Requests are served concurrently; each access of a handler to the
    store is one atomic step, and a schedule picks which caller moves
    next.  The program points of [track_view] are the four store
    accesses it makes through [get_object] and [get_or_create]. *)

Definition view_tracked : Response :=
  {| payload := PDict {[ "status" := "view tracked" ]};
     status := HTTP_200_OK |}.

Inductive Pc :=
| AtGetObject
| AtGet (pk : Z) (ip : option string) (ua : string)
| AtCreate (pk : Z) (ip : option string) (ua : string)
| AtRetryGet (pk : Z) (ip : option string) (ua : string) (e : Exception)
| Finished (r : Exception + Response).

Definition track_view_step (request : Request) (pc : Pc) (st : Store)
  : Pc * Store :=
  match pc with
  | AtGetObject =>
      match get_object request st with
      | (inr property_obj, st') =>
          (AtGet (id property_obj) (get_client_ip request)
             (default "" (META request !! "HTTP_USER_AGENT")), st')
      | (inl e, st') => (Finished (inl e), st')
      end
  | AtGet pk ip ua =>
      match views_get pk ip st with
      | (inr _, st') => (Finished (inr view_tracked), st')
      | (inl e, st') =>
          if is_DoesNotExist e then (AtCreate pk ip ua, st')
          else (Finished (inl e), st')
      end
  | AtCreate pk ip ua =>
      match views_create pk ip ua st with
      | (inr _, st') => (Finished (inr view_tracked), st')
      | (inl e, st') =>
          if is_IntegrityError e then (AtRetryGet pk ip ua e, st')
          else (Finished (inl e), st')
      end
  | AtRetryGet pk ip ua e =>
      match views_get pk ip st with
      | (inr _, st') => (Finished (inr view_tracked), st')
      | (inl e', st') =>
          if is_DoesNotExist e' then (Finished (inl e), st')
          else (Finished (inl e'), st')
      end
  | Finished r => (Finished r, st)
  end.

Record System := {
  store : Store;
  callers : list (Request * Pc);
}.

(** One scheduled step: caller [i] moves, the others wait. *)
Definition system_step (i : nat) (sys : System) : System :=
  match callers sys !! i with
  | Some (request, pc) =>
      let '(pc', st') := track_view_step request pc (store sys) in
      {| store := st'; callers := <[i := (request, pc')]> (callers sys) |}
  | None => sys
  end.

Definition run (schedule : list nat) (sys : System) : System :=
  foldl (fun sys i => system_step i sys) sys schedule.

Definition start (st : Store) (requests : list Request) : System :=
  {| store := st; callers := map (fun r => (r, AtGetObject)) requests |}.

End PropertyViewSet.

(** ** Vocabulary of the properties

    Definitions used to state and prove the properties: the words of the
    specification, and pure readings of the handlers as functions of the
    catalogue. *)

(** The first address of a comma-separated list: the characters before
    the first comma. *)
Fixpoint first_address (s : string) : string :=
  match s with
  | EmptyString => EmptyString
  | String c rest =>
      if Ascii.eqb c "," then EmptyString else String c (first_address rest)
  end.

(** A bound counts as supplied when the parameter is present and not the
    empty string (which no numeric column reads as a number). *)
Definition supplied (request : Request) (param raw : string) : Prop :=
  query_params request !! param = Some raw /\ raw <> "".

(** The four range constraints of a search, each read only when its
    parameter is supplied. *)
Definition in_bounds (cfg : Config) (request : Request) (p : Property) : Prop :=
  (forall raw, supplied request "min_price" raw ->
     exists v, price_to_python cfg raw = Some v /\ (v <= price p)%Q) /\
  (forall raw, supplied request "max_price" raw ->
     exists v, price_to_python cfg raw = Some v /\ (price p <= v)%Q) /\
  (forall raw, supplied request "min_area" raw ->
     exists v, area_to_python cfg raw = Some v /\ (v <= area p)%Q) /\
  (forall raw, supplied request "max_area" raw ->
     exists v, area_to_python cfg raw = Some v /\ (area p <= v)%Q).

(** Every supplied bound is readable by its column. *)
Definition well_formed_bounds (cfg : Config) (request : Request) : Prop :=
  (forall raw, supplied request "min_price" raw ->
     is_Some (price_to_python cfg raw)) /\
  (forall raw, supplied request "max_price" raw ->
     is_Some (price_to_python cfg raw)) /\
  (forall raw, supplied request "min_area" raw ->
     is_Some (area_to_python cfg raw)) /\
  (forall raw, supplied request "max_area" raw ->
     is_Some (area_to_python cfg raw)).

(** The request with one query parameter taken away. *)
Definition without_param (param : string) (request : Request) : Request :=
  {| kwargs_pk := kwargs_pk request;
     query_params := delete param (query_params request);
     META := META request;
     data := data request |}.

Definition range_params : list string :=
  ["min_price"; "max_price"; "min_area"; "max_area"].

(** The column coercion a range parameter goes through. *)
Definition coercion_of (cfg : Config) (param : string) : string -> option Q :=
  if bool_decide (param ∈ ["min_price"; "max_price"])
  then price_to_python cfg else area_to_python cfg.

(** The terms of the ordering parameter, as the ordering backend reads
    them, and a request naming a field the view does not list. *)
Definition ordering_terms (request : Request) : list string :=
  match query_params request !! "ordering" with
  | Some p => map Py.strip (Py.split "," p)
  | None => []
  end.

Definition names_unsupported_field (request : Request) : Prop :=
  exists term, term ∈ ordering_terms request /\
               term_valid ordering_fields term = false.

(** One optional range filter of [get_queryset]. *)
Definition range_filter (lookup : string) (column : Property -> Q)
  (op : Q -> Q -> bool) (to_python : string -> option Q)
  (param : option string) (qs : list Property) : Exception + list Property :=
  if Py.truthy param
  then filter_lookup lookup column op to_python (default "" param) qs
  else inr qs.

(** What a row must satisfy for one range parameter. *)
Definition within (op : Q -> Q -> bool) (to_python : string -> option Q)
  (param : option string) (x : Q) : bool :=
  if Py.truthy param
  then match to_python (default "" param) with
       | Some v => op x v
       | None => false
       end
  else true.

Definition matches_search (cfg : Config) (params : gmap string string)
  (p : Property) : bool :=
  is_available p
  && (within gte (price_to_python cfg) (params !! "min_price") (price p)
  && (within lte (price_to_python cfg) (params !! "max_price") (price p)
  && (within gte (area_to_python cfg) (params !! "min_area") (area p)
  && within lte (area_to_python cfg) (params !! "max_area") (area p)))).

(** The query set of [get_queryset] as a function of the catalogue. *)
Definition queryset_of (cfg : Config) (params : gmap string string)
  (all : list Property) : Exception + list Property :=
  ebind (range_filter "price__gte" price gte (price_to_python cfg)
           (params !! "min_price") (List.filter is_available all))
    (fun q1 =>
  ebind (range_filter "price__lte" price lte (price_to_python cfg)
           (params !! "max_price") q1)
    (fun q2 =>
  ebind (range_filter "area__gte" area gte (area_to_python cfg)
           (params !! "min_area") q2)
    (fun q3 =>
  range_filter "area__lte" area lte (area_to_python cfg)
           (params !! "max_area") q3))).

(** The filtered query set a request sees, as a function of the
    catalogue: what both the list action and [get_object] start from. *)
Definition visible (cfg : Config) (request : Request) (all : list Property)
  : Exception + list Property :=
  ebind (queryset_of cfg (query_params request) all)
    (filter_queryset cfg request).

Definition pick (pk : Z) (qs : list Property) : Exception + Property :=
  match List.filter (fun p => (id p =? pk)%Z) qs with
  | [] => inl Http404
  | [obj] => inr obj
  | _ => inl MultipleObjectsReturned
  end.

(** [get_object] as a function of the catalogue. *)
Definition resolve (cfg : Config) (request : Request) (all : list Property)
  : Exception + Property :=
  ebind (visible cfg request all) (pick (kwargs_pk request)).

(** The rows the store holds for one (listing, address) pair. *)
Definition rows_for (pk : Z) (ip : string) (st : Store) : list PropertyView :=
  List.filter (same_visitor pk ip) (views st).

Definition add_view (v : PropertyView) (st : Store) : Store :=
  {| properties := properties st; views := views st ++ [v];
     inquiries := inquiries st; inquiry_seq := inquiry_seq st |}.

Definition add_inquiry (i : PropertyInquiry) (st : Store) : Store :=
  {| properties := properties st; views := views st;
     inquiries := inquiries st ++ [i]; inquiry_seq := inquiry_id i |}.

(** Serving requests one after the other with one handler. *)
Fixpoint serve (handler : Request -> View Response) (requests : list Request)
  (st : Store) : list (Exception + Response) * Store :=
  match requests with
  | [] => ([], st)
  | r :: rest =>
      let '(res, st1) := handler r st in
      let '(ress, st2) := serve handler rest st1 in
      (res :: ress, st2)
  end.

(** A request that addresses listing [pk] from address [ip]: its listing
    resolves to [pk] and its attribution address is [ip]. *)
Definition views_listing_from (cfg : Config) (st : Store) (pk : Z)
  (ip : string) (request : Request) : Prop :=
  (exists obj, get_object cfg request st = (inr obj, st) /\ id obj = pk) /\
  get_client_ip request = Some ip.

(** A declared field is offended by the submitted data when it is
    required and missing, or present and refused by its own rules. *)
Definition missing_required (f : SerializerField) (d : gmap string string)
  : Prop :=
  required f = true /\ d !! field_name f = None.

Definition malformed (f : SerializerField) (d : gmap string string) : Prop :=
  exists s messages,
    d !! field_name f = Some s /\ to_internal_value f s = inl messages.

Definition offending (f : SerializerField) (d : gmap string string) : Prop :=
  missing_required f d \/ malformed f d.

(** Store accesses a caller still has ahead of it. *)
Definition remaining (pc : Pc) : nat :=
  match pc with
  | AtGetObject => 4
  | AtGet _ _ _ => 3
  | AtCreate _ _ _ => 2
  | AtRetryGet _ _ _ _ => 1
  | Finished _ => 0
  end.

Definition remaining_at (j : nat) (sys : System) : nat :=
  match callers sys !! j with
  | Some (_, pc) => remaining pc
  | None => 0
  end.

(** The invariant of interleaved callers that all view listing [pk] of
    catalogue [all] from address [ip]: the catalogue is not written, the
    pair has at most one row, and every caller is at a program point
    consistent with the store. *)
Definition targets (cfg : Config) (all : list Property) (pk : Z) (ip : string)
  (r : Request) : Prop :=
  (exists obj, resolve cfg r all = inr obj /\ id obj = pk) /\
  get_client_ip r = Some ip.

Definition pc_ok (pk : Z) (ip : string) (st : Store) (pc : Pc) : Prop :=
  match pc with
  | AtGetObject => True
  | AtGet pk' ip' _ | AtCreate pk' ip' _ => pk' = pk /\ ip' = Some ip
  | AtRetryGet pk' ip' _ _ =>
      pk' = pk /\ ip' = Some ip /\ rows_for pk ip st <> []
  | Finished res => res = inr view_tracked /\ rows_for pk ip st <> []
  end.

Record Inv (cfg : Config) (all : list Property) (pk : Z) (ip : string)
  (sys : System) : Prop := {
  inv_properties : properties (store sys) = all;
  inv_rows : length (rows_for pk ip (store sys)) <= 1;
  inv_callers :
    forall j r pc, callers sys !! j = Some (r, pc) ->
                   targets cfg all pk ip r /\ pc_ok pk ip (store sys) pc;
}.

(** ** A concrete site, for running the handlers on examples *)

Module Sample.

(** A column coercion that reads unsigned decimal digit strings. *)
Fixpoint digits_value (s : string) (acc : Z) : option Z :=
  match s with
  | EmptyString => Some acc
  | String c rest =>
      let n := nat_of_ascii c in
      if ((48 <=? n)%nat && (n <=? 57)%nat)%bool
      then digits_value rest (10 * acc + Z.of_nat (n - 48))
      else None
  end.

Definition to_python (s : string) : option Q :=
  match s with
  | EmptyString => None
  | _ => inject_Z <$> digits_value s 0
  end.

(** A backend whose parameters are absent from the request leaves the
    query set as it is. *)
Definition unused_filter (r : Request) (qs : list Property)
  : Exception + list Property := inr qs.

(** Sort keys of the database sort: the named column, ascending, or
    descending after a leading dash; terms are compared in order. *)
Definition column (name : string) : Property -> Q :=
  if String.eqb name "price" then price
  else if String.eqb name "area" then area
  else if String.eqb name "rating" then rating
  else fun p => inject_Z (created_at p).

Fixpoint precedes (terms : list string) (p q : Property) : bool :=
  match terms with
  | [] => true
  | t :: rest =>
      let desc := Py.startswith_dash t in
      let col := column (if desc then Py.tail1 t else t) in
      let '(a, b) := if desc then (col q, col p) else (col p, col q) in
      if Qeq_bool a b then precedes rest p q else Qle_bool a b
  end.

Definition sort_rows (terms : list string) (qs : list Property)
  : list Property :=
  merge_sort (fun p q => Is_true (precedes terms p q)) qs.

Definition serializer_char (name : string) (req : bool) : SerializerField :=
  {| field_name := name; required := req;
     to_internal_value := fun s =>
       match s with
       | EmptyString => inl ["This field may not be blank."]
       | _ => inr s
       end |}.

Definition inquiry_fields_decl : list SerializerField :=
  [serializer_char "name" true; serializer_char "email" true;
   serializer_char "phone" false; serializer_char "message" true].

Definition listing (pk : Z) (p a : Z) (avail : bool) (t : Z) : Property :=
  {| id := pk; title := "listing"; price := inject_Z p; area := inject_Z a;
     rating := 0; is_available := avail; created_at := t |}.

Definition P101 : Property := listing 101 250000 1200 true 10.
Definition P102 : Property := listing 102 90000 800 false 20.
Definition P103 : Property := listing 103 120000 950 true 30.

Definition catalog : Store :=
  {| properties := [P101; P102; P103]; views := []; inquiries := [];
     inquiry_seq := 0 |}.

Definition GET (params : list (string * string)) : Request :=
  {| kwargs_pk := 0; query_params := list_to_map params;
     META := {[ "REMOTE_ADDR" := "10.0.0.5" ]}; data := ∅ |}.

Definition POST (pk : Z) (meta body : list (string * string)) : Request :=
  {| kwargs_pk := pk; query_params := ∅;
     META := list_to_map meta; data := list_to_map body |}.

Definition no_filter : FilterBackend.
Proof.
  refine {| backend_filter := unused_filter |}.
  intros r qs qs' [= <-]. reflexivity.
Defined.

Definition sorter : OrderBy.
Proof.
  refine {| order_by := sort_rows |}.
  intros o qs. apply merge_sort_Permutation.
Defined.

Definition cfg : Config :=
  {| price_to_python := to_python;
     area_to_python := to_python;
     DjangoFilterBackend := no_filter;
     SearchFilter := no_filter;
     db_sort := sorter;
     PropertyInquirySerializer := inquiry_fields_decl;
     unique_together := true |}.

(** The same site with the uniqueness declaration left out. *)
Definition cfg_no_unique : Config :=
  {| price_to_python := to_python;
     area_to_python := to_python;
     DjangoFilterBackend := no_filter;
     SearchFilter := no_filter;
     db_sort := sorter;
     PropertyInquirySerializer := inquiry_fields_decl;
     unique_together := false |}.

Definition search : Request -> View (list Property) := list_action cfg.

Definition object : Request -> View Property := get_object cfg.

Definition track : Request -> View Response := track_view cfg.

Definition ask : Z -> Request -> View Response := inquire cfg.

Definition viewer (pk : Z) (agent : string) : Request :=
  POST pk [("REMOTE_ADDR", "10.0.0.5"); ("HTTP_USER_AGENT", agent)] [].

Definition proxied_viewer (pk : Z) (agent : string) : Request :=
  POST pk [("HTTP_X_FORWARDED_FOR", "10.0.0.5,172.16.0.1");
           ("REMOTE_ADDR", "192.168.1.1"); ("HTTP_USER_AGENT", agent)] [].

Definition blank_contact : Request :=
  POST 101 [("REMOTE_ADDR", "10.0.0.5")]
    [("name", "Ann"); ("email", ""); ("message", "Is it still free?")].

Definition full_contact : Request :=
  POST 101 [("REMOTE_ADDR", "10.0.0.5")]
    [("name", "Ann"); ("email", "ann@example.org");
     ("message", "Is it still free?")].

End Sample.

(** ** Python helpers *)

Lemma split_first s : Py.split "," s !! 0%nat = Some (first_address s).
Proof.
  induction s as [|c rest IH]; simpl; [reflexivity|].
  destruct (Ascii.eqb c ","); [reflexivity|].
  destruct (Py.split "," rest) as [|w ws]; simpl in *; [discriminate|].
  congruence.
Qed.

Lemma first_address_no_comma s : Py.contains "," (first_address s) = false.
Proof.
  induction s as [|c rest IH]; simpl; [reflexivity|].
  destruct (Ascii.eqb c ",") eqn:E; simpl; [reflexivity|].
  now rewrite E.
Qed.

Lemma first_address_prefix s :
  s = first_address s \/
  exists rest, s = (first_address s ++ String "," rest)%string.
Proof.
  induction s as [|c rest IH]; simpl; [now left|].
  destruct (Ascii.eqb c ",") eqn:E.
  - apply Ascii.eqb_eq in E; subst. right. now exists rest.
  - destruct IH as [IH|[r IH]].
    + left. f_equal. exact IH.
    + right. exists r.
      change (String c rest = String c (first_address rest ++ String "," r)%string).
      f_equal. exact IH.
Qed.

Lemma truthy_spec o :
  Py.truthy o = true <-> exists raw, o = Some raw /\ raw <> "".
Proof.
  destruct o as [[|c s]|]; simpl; split.
  - discriminate.
  - intros (raw & [= <-] & H). congruence.
  - intros _. eexists; split; [reflexivity|discriminate].
  - reflexivity.
  - discriminate.
  - intros (raw & H & _). discriminate.
Qed.

Lemma truthy_false o :
  Py.truthy o = false <-> o = None \/ o = Some "".
Proof.
  destruct o as [[|c s]|]; simpl; split; auto; try discriminate.
  intros [H|H]; discriminate.
Qed.

(** ** List filtering *)

Lemma filter_fuse {A} (f g : A -> bool) l :
  List.filter g (List.filter f l) = List.filter (fun x => f x && g x) l.
Proof.
  induction l as [|x l IH]; simpl; [reflexivity|].
  destruct (f x); simpl; [destruct (g x)|]; now rewrite IH.
Qed.

Lemma filter_elem_of {A} (f : A -> bool) l x :
  x ∈ List.filter f l <-> x ∈ l /\ f x = true.
Proof. rewrite !list_elem_of_In. apply filter_In. Qed.

(** ** The search query set *)

Section QuerySet.

Variable cfg : Config.

Lemma get_queryset_pure request st :
  get_queryset cfg request st
  = (queryset_of cfg (query_params request) (properties st), st).
Proof.
  unfold get_queryset, queryset_of, bind, lift, get_store, ret.
  fold (range_filter "price__gte" price gte (price_to_python cfg)
          (query_params request !! "min_price")
          (List.filter is_available (properties st))).
  destruct (range_filter "price__gte" _ _ _ _ _) as [e|q1]; [reflexivity|].
  cbn [ebind].
  fold (range_filter "price__lte" price lte (price_to_python cfg)
          (query_params request !! "max_price") q1).
  destruct (range_filter "price__lte" _ _ _ _ _) as [e|q2]; [reflexivity|].
  cbn [ebind].
  fold (range_filter "area__gte" area gte (area_to_python cfg)
          (query_params request !! "min_area") q2).
  destruct (range_filter "area__gte" _ _ _ _ _) as [e|q3]; [reflexivity|].
  cbn [ebind].
  fold (range_filter "area__lte" area lte (area_to_python cfg)
          (query_params request !! "max_area") q3).
  destruct (range_filter "area__lte" _ _ _ _ _) as [e|q4]; reflexivity.
Qed.

Lemma range_filter_inr lookup column op to_python param qs qs' :
  range_filter lookup column op to_python param qs = inr qs' ->
  qs' = List.filter (fun p => within op to_python param (column p)) qs.
Proof.
  unfold range_filter, within, filter_lookup.
  destruct (Py.truthy param).
  - destruct (to_python _); [|discriminate]. now intros [= <-].
  - intros [= <-]. induction qs as [|x qs IH]; simpl; congruence.
Qed.

Lemma range_filter_inl lookup column op to_python param qs e :
  range_filter lookup column op to_python param qs = inl e ->
  exists raw, param = Some raw /\ raw <> "" /\ to_python raw = None /\
              e = FieldValueError lookup raw.
Proof.
  unfold range_filter, filter_lookup.
  destruct (Py.truthy param) eqn:T; [|discriminate].
  apply truthy_spec in T as (raw & -> & Hne). simpl.
  destruct (to_python raw) eqn:P; [discriminate|].
  intros [= <-]. eauto.
Qed.

Lemma range_filter_total lookup column op to_python param qs :
  (forall raw, param = Some raw -> raw <> "" -> is_Some (to_python raw)) ->
  exists qs', range_filter lookup column op to_python param qs = inr qs'.
Proof.
  intros H. destruct (range_filter lookup column op to_python param qs)
    as [e|qs'] eqn:E; [|eauto].
  apply range_filter_inl in E as (raw & -> & Hne & P & _).
  destruct (H raw eq_refl Hne) as [v Hv]. congruence.
Qed.

Lemma range_filter_malformed lookup column op to_python param qs raw :
  param = Some raw -> raw <> "" -> to_python raw = None ->
  range_filter lookup column op to_python param qs
  = inl (FieldValueError lookup raw).
Proof.
  intros -> Hne P. unfold range_filter, filter_lookup.
  destruct raw; [congruence|]. simpl. now rewrite P.
Qed.

Lemma queryset_of_inr params all qs :
  queryset_of cfg params all = inr qs ->
  qs = List.filter (matches_search cfg params) all.
Proof.
  unfold queryset_of.
  destruct (range_filter "price__gte" _ _ _ _ _) as [|q1] eqn:E1; [discriminate|].
  cbn [ebind].
  destruct (range_filter "price__lte" _ _ _ _ _) as [|q2] eqn:E2; [discriminate|].
  cbn [ebind].
  destruct (range_filter "area__gte" _ _ _ _ _) as [|q3] eqn:E3; [discriminate|].
  cbn [ebind]. intros E4.
  apply range_filter_inr in E1, E2, E3, E4. subst.
  rewrite !filter_fuse. reflexivity.
Qed.

Lemma queryset_of_inl params all e :
  queryset_of cfg params all = inl e ->
  exists lookup raw, e = FieldValueError lookup raw.
Proof.
  unfold queryset_of.
  destruct (range_filter "price__gte" _ _ _ _ _) as [|q1] eqn:E1.
  { cbn [ebind]. intros [= <-].
    apply range_filter_inl in E1 as (raw & _ & _ & _ & ->). eauto. }
  cbn [ebind].
  destruct (range_filter "price__lte" _ _ _ _ _) as [|q2] eqn:E2.
  { cbn [ebind]. intros [= <-].
    apply range_filter_inl in E2 as (raw & _ & _ & _ & ->). eauto. }
  cbn [ebind].
  destruct (range_filter "area__gte" _ _ _ _ _) as [|q3] eqn:E3.
  { cbn [ebind]. intros [= <-].
    apply range_filter_inl in E3 as (raw & _ & _ & _ & ->). eauto. }
  cbn [ebind]. intros E4.
  apply range_filter_inl in E4 as (raw & _ & _ & _ & ->). eauto.
Qed.

End QuerySet.

Section Search.

Variable cfg : Config.

Lemma within_spec op to_python param x :
  within op to_python param x = true <->
  (forall raw, param = Some raw -> raw <> "" ->
     exists v, to_python raw = Some v /\ op x v = true).
Proof.
  unfold within. destruct (Py.truthy param) eqn:T.
  - apply truthy_spec in T as (raw & -> & Hne). simpl. split.
    + intros H raw' [= <-] _. destruct (to_python raw); [eauto|discriminate].
    + intros H. destruct (H raw eq_refl Hne) as (v & -> & Hv). exact Hv.
  - apply truthy_false in T. split; [|reflexivity].
    intros _ raw -> Hne. destruct T as [T|T]; congruence.
Qed.

Lemma matches_search_spec request p :
  matches_search cfg (query_params request) p = true
  <-> is_available p = true /\
      in_bounds cfg request p.
Proof.
  unfold matches_search, in_bounds, supplied.
  rewrite !andb_true_iff, !within_spec. unfold gte, lte.
  setoid_rewrite Qle_bool_iff. split.
  - intros (Ha & H1 & H2 & H3 & H4). split; [exact Ha|].
    split; [|split; [|split]]; intros raw [? ?]; eauto.
  - intros (Ha & H1 & H2 & H3 & H4).
    split; [exact Ha|split; [|split; [|split]]]; intros raw ? ?; eauto.
Qed.

Lemma OrderingFilter_narrows r qs qs' :
  OrderingFilter cfg r qs = inr qs' -> qs' ⊆+ qs.
Proof.
  unfold OrderingFilter.
  destruct (get_ordering _ _ _); intros [= <-]; [reflexivity|].
  apply Permutation_submseteq, order_by_perm.
Qed.

Lemma filter_queryset_narrows r qs qs' :
  filter_queryset cfg r qs = inr qs' ->
  qs' ⊆+ qs.
Proof.
  unfold filter_queryset, filter_backends. cbn [foldl ebind].
  destruct (backend_filter (DjangoFilterBackend cfg) r qs) as [|q1] eqn:E1;
    [discriminate|]. cbn [ebind].
  destruct (backend_filter (SearchFilter cfg) r q1) as [|q2] eqn:E2;
    [discriminate|]. cbn [ebind].
  intros E3. apply OrderingFilter_narrows in E3.
  apply backend_narrows in E1, E2. now rewrite E3, E2.
Qed.

Lemma list_action_pure request st :
  list_action cfg request st
  = (ebind (queryset_of cfg
              (query_params request) (properties st))
       (filter_queryset cfg request),
     st).
Proof.
  unfold list_action, bind, lift. rewrite get_queryset_pure.
  destruct (queryset_of _ _ _); reflexivity.
Qed.

(** Everything a search returns passed [get_queryset]'s filter. *)
Lemma list_action_results request st results st' :
  list_action cfg request st = (inr results, st') ->
  st' = st /\
  forall p, p ∈ results ->
    p ∈ properties st /\
    matches_search cfg (query_params request) p
    = true.
Proof.
  rewrite list_action_pure. intros [= H <-]. split; [reflexivity|].
  destruct (queryset_of _ _ _) as [|qs] eqn:E; [discriminate|].
  cbn [ebind] in H. apply filter_queryset_narrows in H.
  apply queryset_of_inr in E. subst qs.
  intros p Hp. apply filter_elem_of. eapply elem_of_submseteq; eauto.
Qed.

(** C1: whatever filters a search request carries, every Property in
    the sequence it returns has [is_available] true: the availability
    filter is the first thing [get_queryset] applies and nothing after
    it adds rows. *)
Theorem search_returns_only_available request st results st' :
  list_action cfg request st = (inr results, st') ->
  Forall (fun p => is_available p = true) results.
Proof.
  intros H. apply list_action_results in H as [_ H].
  apply Forall_forall. intros p Hp.
  destruct (H p Hp) as [_ M].
  apply matches_search_spec in M. tauto.
Qed.

(** C5: with well-formed bounds [get_queryset] returns, and returns
    exactly the available rows that satisfy each supplied bound
    inclusively (v <= price, price <= v, v <= area, area <= v); a bound
    that is not supplied constrains nothing; and every row a search
    returns satisfies the supplied bounds. *)
Theorem range_bounds_inclusive_independent request st :
  well_formed_bounds cfg request ->
  exists qs,
    get_queryset cfg request st = (inr qs, st) /\
    (forall p, p ∈ qs <->
       p ∈ properties st /\ is_available p = true /\
       in_bounds cfg request p) /\
    (forall results st',
       list_action cfg request st = (inr results, st') ->
       forall p, p ∈ results ->
         in_bounds cfg request p).
Proof.
  intros (W1 & W2 & W3 & W4). unfold supplied in *.
  rewrite get_queryset_pure.
  assert (exists qs, queryset_of cfg
                       (query_params request) (properties st) = inr qs)
    as [qs E].
  { unfold queryset_of.
    destruct (range_filter_total "price__gte" price gte (price_to_python cfg)
                (query_params request !! "min_price")
                (List.filter is_available (properties st))) as [q1 ->];
      [naive_solver|]. cbn [ebind].
    destruct (range_filter_total "price__lte" price lte (price_to_python cfg)
                (query_params request !! "max_price") q1) as [q2 ->];
      [naive_solver|]. cbn [ebind].
    destruct (range_filter_total "area__gte" area gte (area_to_python cfg)
                (query_params request !! "min_area") q2) as [q3 ->];
      [naive_solver|]. cbn [ebind].
    destruct (range_filter_total "area__lte" area lte (area_to_python cfg)
                (query_params request !! "max_area") q3) as [q4 ->];
      [naive_solver|]. eauto. }
  exists qs. rewrite E. split; [reflexivity|]. split.
  - apply queryset_of_inr in E. subst qs. intros p.
    rewrite filter_elem_of, matches_search_spec. tauto.
  - intros results st' H p Hp.
    apply list_action_results in H as [_ H].
    destruct (H p Hp) as [_ M]. apply matches_search_spec in M. tauto.
Qed.

End Search.

Section MalformedBounds.

Variable cfg : Config.

Lemma queryset_of_without_empty param params all :
  param ∈ range_params ->
  params !! param = Some "" ->
  queryset_of cfg params all
  = queryset_of cfg (delete param params) all.
Proof.
  unfold range_params. rewrite !elem_of_cons, elem_of_nil.
  intros [->|[->|[->|[->|[]]]]] E; unfold queryset_of;
    rewrite lookup_delete_eq, !lookup_delete_ne, E by done; reflexivity.
Qed.

Lemma queryset_of_malformed param raw params all :
  param ∈ range_params ->
  params !! param = Some raw -> raw <> "" ->
  coercion_of cfg param raw = None ->
  exists lookup raw',
    queryset_of cfg params all
    = inl (FieldValueError lookup raw').
Proof.
  intros Hin E Hne C.
  destruct (queryset_of cfg params all)
    as [e|qs] eqn:Q.
  { apply queryset_of_inl in Q as (lookup & raw' & ->). eauto. }
  exfalso. revert Q. unfold queryset_of.
  destruct (range_filter "price__gte" _ _ _ _ _) as [|q1] eqn:E1;
    [discriminate|]. cbn [ebind].
  destruct (range_filter "price__lte" _ _ _ _ _) as [|q2] eqn:E2;
    [discriminate|]. cbn [ebind].
  destruct (range_filter "area__gte" _ _ _ _ _) as [|q3] eqn:E3;
    [discriminate|]. cbn [ebind]. intros E4.
  revert Hin C. unfold range_params, coercion_of.
  rewrite !elem_of_cons, elem_of_nil.
  intros [->|[->|[->|[->|[]]]]]; cbn; intros C.
  - rewrite (range_filter_malformed _ _ _ _ _ _ raw E Hne C) in E1.
    discriminate.
  - rewrite (range_filter_malformed _ _ _ _ _ _ raw E Hne C) in E2.
    discriminate.
  - rewrite (range_filter_malformed _ _ _ _ _ _ raw E Hne C) in E3.
    discriminate.
  - rewrite (range_filter_malformed _ _ _ _ _ _ raw E Hne C) in E4.
    discriminate.
Qed.

(** C4, as the code has it: a range parameter that is supplied as the
    empty string is dropped, the search behaving as if it had been
    omitted; a non-empty one that its column cannot read makes
    [get_queryset], and with it the search, raise the coercion error
    with the store untouched, so it is neither applied nor ignored. *)
Theorem malformed_bound_dropped_or_raises request st param raw :
  param ∈ range_params ->
  query_params request !! param = Some raw ->
  coercion_of cfg param raw = None ->
  (raw = "" ->
     get_queryset cfg request st
     = get_queryset cfg
         (without_param param request) st) /\
  (raw <> "" ->
     exists lookup raw',
       get_queryset cfg request st
       = (inl (FieldValueError lookup raw'), st) /\
       list_action cfg request st
       = (inl (FieldValueError lookup raw'), st)).
Proof.
  intros Hin E C. split.
  - intros ->. rewrite !get_queryset_pure. cbn [without_param query_params properties].
    now rewrite (queryset_of_without_empty param).
  - intros Hne.
    destruct (queryset_of_malformed param raw (query_params request)
                (properties st) Hin E Hne C) as (lookup & raw' & Q).
    exists lookup, raw'.
    rewrite list_action_pure, get_queryset_pure, Q. split; reflexivity.
Qed.

End MalformedBounds.

(** ** Ordering *)

Lemma filter_all_false {A} (f : A -> bool) l :
  Forall (fun x => f x = false) l -> List.filter f l = [].
Proof.
  induction 1 as [|x l Hx _ IH]; simpl; [reflexivity|]. now rewrite Hx.
Qed.

Lemma get_ordering_terms request :
  get_ordering ordering_fields ordering (query_params request)
  = match remove_invalid_fields ordering_fields (ordering_terms request) with
    | [] => ordering
    | kept => kept
    end.
Proof.
  unfold get_ordering, ordering_terms.
  destruct (query_params request !! "ordering") as [[|c p]|]; reflexivity.
Qed.

(** C3, as the code has it: a search whose ordering parameter names a
    field outside price, created_at, rating and area is not rejected.
    The ordering backend drops the unsupported terms and sorts by the
    supported ones that remain, and by the view's default ordering,
    newest first, when none remains. *)
Theorem unsupported_sort_key_dropped (cfg : Config) request qs :
  names_unsupported_field request ->
  (let kept := remove_invalid_fields ordering_fields (ordering_terms request) in
   OrderingFilter cfg request qs
   = inr (order_by (db_sort cfg)
            (match kept with [] => ["-created_at"] | _ => kept end) qs)) /\
  (Forall (fun term => term_valid ordering_fields term = false)
     (ordering_terms request) ->
   OrderingFilter cfg request qs
   = inr (order_by (db_sort cfg) ["-created_at"] qs)).
Proof.
  intros _. split.
  - intros kept. subst kept. unfold OrderingFilter. rewrite get_ordering_terms.
    destruct (remove_invalid_fields _ _); reflexivity.
  - intros Hall. unfold OrderingFilter. rewrite get_ordering_terms.
    unfold remove_invalid_fields. now rewrite filter_all_false.
Qed.

(** ** Attribution address *)

(** C8: the attribution address is the first element of the
    comma-separated forwarded-for header when that header is present
    and non-empty, and the direct connection address otherwise; the
    first element is the header up to its first comma. *)
Theorem client_ip_forwarded_first_else_remote request :
  get_client_ip request
  = match META request !! "HTTP_X_FORWARDED_FOR" with
    | Some (String _ _ as x) => Some (first_address x)
    | _ => META request !! "REMOTE_ADDR"
    end
  /\ forall x, Py.contains "," (first_address x) = false /\
       (x = first_address x \/
        exists rest, x = (first_address x ++ String "," rest)%string).
Proof.
  split.
  - unfold get_client_ip.
    destruct (META request !! "HTTP_X_FORWARDED_FOR") as [[|c x]|];
      try reflexivity.
    cbn [Py.truthy default]. apply split_first.
  - intros x. split; [apply first_address_no_comma|apply first_address_prefix].
Qed.

(** ** Object lookup *)

Section Lookup.

Variable cfg : Config.

Lemma get_object_pure request st :
  get_object cfg request st
  = (resolve cfg request (properties st), st).
Proof.
  unfold get_object, resolve, visible, pick, bind, lift.
  rewrite get_queryset_pure.
  destruct (queryset_of _ _ _) as [|q]; [reflexivity|]. cbn [ebind].
  destruct (filter_queryset _ _ _) as [|q']; [reflexivity|]. cbn [ebind].
  unfold get_object_or_404.
  destruct (List.filter _ q') as [|x [|y l]]; reflexivity.
Qed.

Lemma visible_elem request all qs p :
  visible cfg request all = inr qs -> p ∈ qs ->
  p ∈ all /\ is_available p = true.
Proof.
  unfold visible. intros H Hp.
  destruct (queryset_of _ _ _) as [|q] eqn:E; [discriminate|].
  cbn [ebind] in H. apply filter_queryset_narrows in H.
  apply queryset_of_inr in E. subst q.
  assert (p ∈ List.filter
            (matches_search cfg
               (query_params request)) all) as Hin
    by (eapply elem_of_submseteq; eauto).
  apply filter_elem_of in Hin as [Hin M]. split; [exact Hin|].
  unfold matches_search in M. now apply andb_true_iff in M as [M _].
Qed.

Lemma resolve_inr request all obj :
  resolve cfg request all = inr obj ->
  obj ∈ all /\ is_available obj = true /\ id obj = kwargs_pk request.
Proof.
  unfold resolve, pick. destruct (visible cfg request all) as [|qs] eqn:V;
    [discriminate|]. cbn [ebind].
  destruct (List.filter _ qs) as [|x [|y l]] eqn:F; try discriminate.
  intros [= ->].
  assert (obj ∈ List.filter (fun p => (id p =? kwargs_pk request)%Z) qs)
    as Hin by (rewrite F; apply list_elem_of_here).
  apply filter_elem_of in Hin as [Hin Hid].
  destruct (visible_elem _ _ _ _ V Hin). split; [|split]; auto.
  now apply Z.eqb_eq.
Qed.

Lemma primary_key_unique (all : list Property) p q :
  NoDup (id <$> all) -> p ∈ all -> q ∈ all -> id p = id q -> p = q.
Proof.
  induction all as [|x all IH]; intros ND Hp Hq E.
  - now apply elem_of_nil in Hp.
  - rewrite fmap_cons in ND. apply NoDup_cons in ND as [Hx ND].
    apply elem_of_cons in Hp as [->|Hp], Hq as [->|Hq]; auto.
    + exfalso. apply Hx. rewrite E. now apply list_elem_of_fmap_2.
    + exfalso. apply Hx. rewrite <- E. now apply list_elem_of_fmap_2.
Qed.

(** An unavailable listing is never resolved, and once the request's
    query set is built the lookup answers not-found. *)
Lemma resolve_unavailable request all p :
  NoDup (id <$> all) -> p ∈ all -> is_available p = false ->
  kwargs_pk request = id p ->
  (exists e, resolve cfg request all = inl e) /\
  (forall qs, visible cfg request all = inr qs ->
              resolve cfg request all = inl Http404).
Proof.
  intros ND Hp Ha Hpk.
  assert (forall qs, visible cfg request all = inr qs ->
                     resolve cfg request all = inl Http404) as H404.
  { intros qs V. unfold resolve, pick. rewrite V. cbn [ebind].
    destruct (List.filter _ qs) as [|x l] eqn:F; [reflexivity|].
    exfalso.
    assert (x ∈ List.filter (fun p => (id p =? kwargs_pk request)%Z) qs)
      as Hin by (rewrite F; apply list_elem_of_here).
    apply filter_elem_of in Hin as [Hin Hid]. apply Z.eqb_eq in Hid.
    destruct (visible_elem _ _ _ _ V Hin) as [Hx Hav].
    assert (x = p) by (eapply primary_key_unique; eauto; congruence).
    congruence. }
  split; [|exact H404].
  destruct (visible cfg request all) as [e|qs] eqn:V.
  - exists e. unfold resolve. now rewrite V.
  - exists Http404. eauto.
Qed.

End Lookup.

(** ** View tracking *)

Section ViewTracker.

Variable cfg : Config.

Lemma same_visitor_refl pk ip ua :
  same_visitor pk ip
    {| view_property := pk; ip_address := ip; user_agent := ua |} = true.
Proof. unfold same_visitor. simpl. now rewrite Z.eqb_refl, String.eqb_refl. Qed.

Lemma existsb_filter_nil {A} (f : A -> bool) l :
  List.filter f l = [] -> existsb f l = false.
Proof.
  induction l as [|x l IH]; simpl; [reflexivity|].
  destruct (f x); [discriminate|]. exact IH.
Qed.

Lemma existsb_filter_cons {A} (f : A -> bool) l x l' :
  List.filter f l = x :: l' -> existsb f l = true.
Proof.
  induction l as [|y l IH]; simpl; [discriminate|].
  destruct (f y); [reflexivity|]. exact IH.
Qed.

Lemma rows_for_add_view pk ip ua st :
  rows_for pk ip
    (add_view {| view_property := pk; ip_address := ip; user_agent := ua |} st)
  = (rows_for pk ip st
      ++ [{| view_property := pk; ip_address := ip; user_agent := ua |}])%list.
Proof.
  unfold rows_for, add_view. cbn [views].
  rewrite List.filter_app. simpl. now rewrite same_visitor_refl.
Qed.

(** [get_or_create] on a pair with no row: one row is appended. *)
Lemma get_or_create_absent pk ip ua st :
  rows_for pk ip st = [] ->
  let v := {| view_property := pk; ip_address := ip; user_agent := ua |} in
  get_or_create cfg pk (Some ip) ua st
  = (inr (v, true), add_view v st).
Proof.
  intros E v. unfold rows_for in E.
  unfold get_or_create, try_except, views_get, views_create, bind,
    get_store, raise, ret, put_store.
  rewrite E. cbn [is_DoesNotExist].
  rewrite (existsb_filter_nil _ _ E), andb_false_r. reflexivity.
Qed.

(** [get_or_create] on a pair with its one row: nothing is written. *)
Lemma get_or_create_present pk ip ua st v :
  rows_for pk ip st = [v] ->
  get_or_create cfg pk (Some ip) ua st = (inr (v, false), st).
Proof.
  unfold rows_for. intros E.
  unfold get_or_create, try_except, views_get, bind, get_store, raise, ret.
  now rewrite E.
Qed.

Lemma track_view_unfold request st :
  track_view cfg request st
  = match resolve cfg request (properties st) with
    | inl e => (inl e, st)
    | inr obj =>
        match get_or_create cfg (id obj) (get_client_ip request)
                (default "" (META request !! "HTTP_USER_AGENT")) st with
        | (inr _, st') => (inr view_tracked, st')
        | (inl e, st') => (inl e, st')
        end
    end.
Proof.
  unfold track_view, bind. rewrite get_object_pure.
  destruct (resolve cfg request (properties st)); [reflexivity|].
  destruct (get_or_create _ _ _ _ _) as [[|[]] ?]; reflexivity.
Qed.

Lemma views_listing_from_frame st st' pk ip request :
  properties st' = properties st ->
  views_listing_from cfg st pk ip request ->
  exists obj, resolve cfg request (properties st') = inr obj /\ id obj = pk.
Proof.
  intros P [(obj & G & Hid) _]. rewrite get_object_pure in G.
  injection G as G. rewrite P. eauto.
Qed.

Lemma serve_track_view_present requests st pk ip v :
  rows_for pk ip st = [v] ->
  Forall (fun r =>
            (exists obj, resolve cfg r (properties st) = inr obj /\ id obj = pk)
            /\ get_client_ip r = Some ip) requests ->
  serve (track_view cfg) requests st
  = (replicate (length requests) (inr view_tracked), st).
Proof.
  intros Hrows. induction 1 as [|r rs [(obj & R & Hid) Hip] _ IH];
    [reflexivity|].
  cbn [serve length replicate]. rewrite track_view_unfold, R, Hip, Hid.
  rewrite (get_or_create_present _ _ _ _ v Hrows). now rewrite IH.
Qed.

(** C2: tracking a view of one listing from one address any number of
    times, starting with no row for the pair, answers every call with
    the same acknowledgement, appends exactly one row to the store, and
    that row carries the user agent of the first call, whatever the
    later calls sent. *)
Theorem track_view_idempotent st pk ip first later :
  rows_for pk ip st = [] ->
  Forall (views_listing_from cfg st pk ip) (first :: later) ->
  let v := {| view_property := pk; ip_address := ip;
              user_agent := default "" (META first !! "HTTP_USER_AGENT") |} in
  serve (track_view cfg) (first :: later) st
  = (replicate (S (length later)) (inr view_tracked), add_view v st) /\
  rows_for pk ip (add_view v st) = [v].
Proof.
  intros Hrows Hall v.
  assert (rows_for pk ip (add_view v st) = [v]) as Hv
    by (unfold v; now rewrite rows_for_add_view, Hrows).
  split; [|exact Hv].
  apply Forall_cons in Hall as [H1 Hl].
  destruct (views_listing_from_frame st st pk ip first eq_refl H1)
    as (obj & R & Hid).
  destruct H1 as [_ Hip].
  cbn [serve]. rewrite track_view_unfold, R, Hip, Hid.
  rewrite (get_or_create_absent _ _ _ _ Hrows). fold v.
  rewrite (serve_track_view_present later (add_view v st) pk ip v Hv).
  - reflexivity.
  - eapply Forall_impl; [exact Hl|]. intros r Hr. split; [|apply Hr].
    eapply (views_listing_from_frame st (add_view v st)); eauto.
Qed.

End ViewTracker.

(** ** Inquiries *)

Lemma offending_invalid f d :
  offending f d <->
  exists messages, run_validation f (d !! field_name f) = Invalid messages.
Proof.
  unfold offending, missing_required, malformed, run_validation. split.
  - intros [[R ->]|(s & m & -> & T)].
    + rewrite R. eauto.
    + rewrite T. eauto.
  - intros [m H]. destruct (d !! field_name f) as [s|].
    + right. destruct (to_internal_value f s) as [m'|] eqn:T; [eauto|discriminate].
    + left. destruct (required f); [auto|discriminate].
Qed.

Lemma validate_fields_errors fields d e0 v0 name :
  is_Some ((validate_fields fields d e0 v0).1 !! name) <->
  is_Some (e0 !! name) \/
  exists f, f ∈ fields /\ field_name f = name /\ offending f d.
Proof.
  revert e0 v0. induction fields as [|f rest IH]; intros e0 v0; cbn [validate_fields].
  - split; [auto|]. intros [H|(f & Hf & _)]; [exact H|].
    now apply elem_of_nil in Hf.
  - destruct (run_validation f (d !! field_name f)) as [x|m|] eqn:R;
      rewrite IH.
    + split; (intros [H|(g & Hg & Hn & Ho)]; [now left|right]).
      * exists g. rewrite elem_of_cons. auto.
      * apply elem_of_cons in Hg as [->|Hg]; [|eauto].
        apply offending_invalid in Ho as [m Hm]. congruence.
    + split.
      * intros [H|(g & Hg & Hn & Ho)].
        -- destruct (decide (field_name f = name)) as [E|NE].
           ++ right. exists f. rewrite elem_of_cons. split; [auto|].
              split; [exact E|]. apply offending_invalid. eauto.
           ++ left. now rewrite lookup_insert_ne in H.
        -- right. exists g. rewrite elem_of_cons. auto.
      * intros [H|(g & Hg & Hn & Ho)].
        -- left. destruct (decide (field_name f = name)) as [E|NE].
           ++ subst. rewrite lookup_insert_eq. eauto.
           ++ now rewrite lookup_insert_ne.
        -- apply elem_of_cons in Hg as [->|Hg]; [|eauto].
           left. subst. rewrite lookup_insert_eq. eauto.
    + split; (intros [H|(g & Hg & Hn & Ho)]; [now left|right]).
      * exists g. rewrite elem_of_cons. auto.
      * apply elem_of_cons in Hg as [->|Hg]; [|eauto].
        apply offending_invalid in Ho as [m Hm]. congruence.
Qed.

Lemma validate_fields_validated fields d e0 v0 name :
  is_Some ((validate_fields fields d e0 v0).2 !! name) ->
  is_Some (v0 !! name) \/ name ∈ map field_name fields.
Proof.
  revert e0 v0. induction fields as [|f rest IH]; intros e0 v0;
    cbn [validate_fields map]; [auto|].
  destruct (run_validation f (d !! field_name f)) as [x|m|];
    intros H; apply IH in H as [H|H]; rewrite ?elem_of_cons; auto.
  destruct (decide (field_name f = name)) as [E|NE]; [auto|].
  rewrite lookup_insert_ne in H by done. auto.
Qed.

Lemma make_serializer_errors fields d name :
  is_Some (errors (make_serializer fields d) !! name) <->
  exists f, f ∈ fields /\ field_name f = name /\ offending f d.
Proof.
  unfold make_serializer.
  pose proof (validate_fields_errors fields d ∅ ∅ name) as H.
  destruct (validate_fields fields d ∅ ∅) as [e v]. cbn [fst errors] in *.
  rewrite H, lookup_empty. split; [|auto].
  intros [[x Hx]|Hf]; [discriminate|exact Hf].
Qed.

Lemma make_serializer_validated fields d name :
  is_Some (validated_data (make_serializer fields d) !! name) ->
  name ∈ map field_name fields.
Proof.
  unfold make_serializer.
  pose proof (validate_fields_validated fields d ∅ ∅ name) as H.
  destruct (validate_fields fields d ∅ ∅) as [e v]. cbn [snd validated_data] in *.
  intros Hs. destruct (H Hs) as [[x Hx]|Hin]; [|exact Hin].
  rewrite lookup_empty in Hx. discriminate.
Qed.

Lemma is_valid_false fields d :
  is_valid (make_serializer fields d) = false <->
  exists f, f ∈ fields /\ offending f d.
Proof.
  unfold is_valid. rewrite bool_decide_eq_false. split.
  - intros NE. apply map_choose in NE as (name & m & Hm).
    destruct (proj1 (make_serializer_errors fields d name)) as (f & Hf & _ & Ho);
      eauto.
  - intros (f & Hf & Ho) E.
    destruct (proj2 (make_serializer_errors fields d (field_name f)))
      as [m Hm]; [eauto|].
    rewrite E, lookup_empty in Hm. discriminate.
Qed.

Lemma is_valid_true fields d :
  Forall (fun f => ~ offending f d) fields ->
  is_valid (make_serializer fields d) = true.
Proof.
  intros H. destruct (is_valid _) eqn:V; [reflexivity|].
  apply is_valid_false in V as (f & Hf & Ho).
  rewrite Forall_forall in H. now destruct (H f Hf).
Qed.

Section InquiryWorkflow.

Variable cfg : Config.

Lemma inquire_unfold now request st :
  inquire cfg now request st
  = match resolve cfg request (properties st) with
    | inl e => (inl e, st)
    | inr obj =>
        let serializer :=
          make_serializer (PropertyInquirySerializer cfg) (data request) in
        if is_valid serializer
        then
          let i := {| inquiry_id := inquiry_seq st + 1;
                      inquiry_property := id obj;
                      inquiry_status :=
                        default default_status
                          (validated_data serializer !! "status");
                      inquiry_created_at := now;
                      inquiry_fields :=
                        delete "status" (validated_data serializer) |} in
          (inr {| payload := PInquiry i; status := HTTP_201_CREATED |},
           add_inquiry i st)
        else
          (inr {| payload := PErrors (errors serializer);
                  status := HTTP_400_BAD_REQUEST |}, st)
    end.
Proof.
  unfold inquire, bind. rewrite get_object_pure.
  destruct (resolve cfg request (properties st)); [reflexivity|].
  cbv zeta. destruct (is_valid _); reflexivity.
Qed.

(** C6: an inquiry with a missing required field or a malformed field
    leaves the store as it was, hence creates no PropertyInquiry; and
    when its listing resolves, the answer is status 400 carrying the
    serializer's error map, whose keys are exactly the names of the
    offending fields, all of them. *)
Theorem invalid_inquiry_creates_nothing now request st f :
  f ∈ PropertyInquirySerializer cfg ->
  offending f (data request) ->
  (inquire cfg now request st).2 = st /\
  (forall obj, get_object cfg request st = (inr obj, st) ->
     exists errs,
       inquire cfg now request st
       = (inr {| payload := PErrors errs; status := HTTP_400_BAD_REQUEST |},
          st) /\
       is_Some (errs !! field_name f) /\
       forall name,
         is_Some (errs !! name) <->
         exists g, g ∈ PropertyInquirySerializer cfg /\ field_name g = name /\
                   offending g (data request)).
Proof.
  intros Hf Ho.
  assert (is_valid (make_serializer (PropertyInquirySerializer cfg) (data request))
          = false) as V by (apply is_valid_false; eauto).
  rewrite inquire_unfold. split.
  - destruct (resolve cfg request (properties st)); [reflexivity|].
    cbv zeta. now rewrite V.
  - intros obj G. rewrite get_object_pure in G. injection G as ->.
    cbv zeta. rewrite V. eexists. split; [reflexivity|]. split.
    + apply make_serializer_errors. eauto.
    + intros name. apply make_serializer_errors.
Qed.

(** C7: an inquiry whose listing resolves and whose declared fields
    are all satisfied appends exactly one PropertyInquiry to the store,
    bound to the resolved listing, in the starting state, with the next
    key of the sequence and the time of the call, and returns that
    record with status 201; views and listings are untouched.  The
    status is not among the fields the serializer accepts. *)
Theorem valid_inquiry_creates_one now request st obj :
  get_object cfg request st = (inr obj, st) ->
  Forall (fun f => ~ offending f (data request))
    (PropertyInquirySerializer cfg) ->
  "status" ∉ map field_name (PropertyInquirySerializer cfg) ->
  exists i,
    inquire cfg now request st
    = (inr {| payload := PInquiry i; status := HTTP_201_CREATED |},
       add_inquiry i st) /\
    inquiries (add_inquiry i st) = (inquiries st ++ [i])%list /\
    views (add_inquiry i st) = views st /\
    properties (add_inquiry i st) = properties st /\
    inquiry_property i = id obj /\
    inquiry_status i = "submitted" /\
    inquiry_id i = (inquiry_seq st + 1)%Z /\
    inquiry_created_at i = now /\
    (Forall (fun j => (inquiry_id j <= inquiry_seq st)%Z) (inquiries st) ->
     Forall (fun j => inquiry_id j <> inquiry_id i) (inquiries st)).
Proof.
  intros G Hok Hst. rewrite get_object_pure in G. injection G as G.
  rewrite inquire_unfold, G. cbv zeta.
  rewrite (is_valid_true _ _ Hok).
  destruct (validated_data (make_serializer (PropertyInquirySerializer cfg)
                              (data request)) !! "status") as [s|] eqn:S.
  { exfalso. apply Hst. eapply make_serializer_validated. eauto. }
  eexists. split; [reflexivity|]. cbn.
  repeat (split; [reflexivity|]).
  intros Hseq. eapply Forall_impl; [exact Hseq|]. cbn. intros j Hj. lia.
Qed.

End InquiryWorkflow.

(** ** Availability gates engagement *)

Section Gate.

Variable cfg : Config.

(** C10, as the code has it: for a listing that exists but is
    unavailable, [track_view] and [inquire] both raise and leave the store
    as it was, so no row is created; and whenever the request's own query
    set can be built, what they raise is not-found, because [get_object]
    looks the listing up in the same availability-filtered query set that
    search uses.  (When it cannot be built, the error of building it is
    raised instead.) *)
Theorem unavailable_listing_not_found now request st p :
  NoDup (id <$> properties st) ->
  p ∈ properties st ->
  is_available p = false ->
  kwargs_pk request = id p ->
  (exists e, track_view cfg request st = (inl e, st)) /\
  (exists e, inquire cfg now request st = (inl e, st)) /\
  (forall results,
     list_action cfg request st = (inr results, st) ->
     track_view cfg request st = (inl Http404, st) /\
     inquire cfg now request st = (inl Http404, st)).
Proof.
  intros ND Hp Ha Hpk.
  destruct (resolve_unavailable cfg request
              (properties st) p ND Hp Ha Hpk) as [[e He] H404].
  rewrite track_view_unfold, inquire_unfold, He.
  split; [eauto|]. split; [eauto|].
  intros results L. rewrite list_action_pure in L. injection L as L.
  specialize (H404 results L). rewrite He in H404.
  injection H404 as ->. split; reflexivity.
Qed.

End Gate.

(** ** Interleaved view tracking under the uniqueness declaration *)

Section Interleaving.

Variable cfg : Config.

(** The catalogue, and the (listing, address) pair all callers view. *)
Variable all : list Property.
Variable pk : Z.
Variable ip : string.

(** The [PropertyView] table declares (property, ip_address) unique. *)
Hypothesis declared_unique : unique_together cfg = true.

Local Abbreviation step := (track_view_step cfg).

Lemma views_get_rows st :
  views_get pk (Some ip) st
  = match rows_for pk ip st with
    | [] => (inl DoesNotExist, st)
    | [v] => (inr v, st)
    | _ => (inl MultipleObjectsReturned, st)
    end.
Proof.
  unfold views_get, rows_for, bind, get_store, raise, ret.
  destruct (List.filter _ _) as [|v [|w l]]; reflexivity.
Qed.

Lemma views_create_rows ua st :
  views_create cfg pk (Some ip) ua st
  = match rows_for pk ip st with
    | [] =>
        let v := {| view_property := pk; ip_address := ip;
                    user_agent := ua |} in
        (inr v, add_view v st)
    | _ => (inl IntegrityError, st)
    end.
Proof.
  unfold views_create, rows_for, bind, get_store, raise, ret, put_store.
  rewrite declared_unique. cbn [andb].
  destruct (List.filter _ _) as [|v l] eqn:F.
  - now rewrite (existsb_filter_nil _ _ F).
  - now rewrite (existsb_filter_cons _ _ _ _ F).
Qed.

Local Arguments rows_for : simpl never.

Local Ltac settle :=
  first
    [ exfalso; lia
    | exfalso; congruence
    | repeat split;
      first [assumption | lia | discriminate | congruence | tauto] ].

(** One step of one caller: the invariant's store part is kept, the
    caller's own program point stays consistent and moves on, and rows
    of the pair are never taken away. *)
Lemma step_invariant r pc st :
  targets cfg all pk ip r -> properties st = all ->
  length (rows_for pk ip st) <= 1 -> pc_ok pk ip st pc ->
  properties (step r pc st).2 = all /\
  length (rows_for pk ip (step r pc st).2) <= 1 /\
  pc_ok pk ip (step r pc st).2 (step r pc st).1 /\
  (rows_for pk ip st <> [] -> rows_for pk ip (step r pc st).2 <> []) /\
  remaining (step r pc st).1 <= remaining pc - 1.
Proof.
  intros [(obj & R & Hid) Hip] P L Hpc.
  destruct pc as [|pk' ip' ua|pk' ip' ua|pk' ip' ua e|res]; cbn [track_view_step].
  - rewrite get_object_pure, P, R. cbn. rewrite Hid, Hip. auto with lia.
  - destruct Hpc as [-> ->]. rewrite views_get_rows.
    destruct (rows_for pk ip st) as [|v [|w l]] eqn:F; cbn in L |- *;
      rewrite ?F; cbn; settle.
  - destruct Hpc as [-> ->]. rewrite views_create_rows.
    destruct (rows_for pk ip st) as [|v l] eqn:F; cbn [fst snd is_IntegrityError].
    + cbn [pc_ok]. rewrite !rows_for_add_view, F. cbn. settle.
    + rewrite F. cbn. settle.
  - destruct Hpc as (-> & -> & NE). rewrite views_get_rows.
    destruct (rows_for pk ip st) as [|v [|w l]] eqn:F; cbn in L |- *;
      rewrite ?F; cbn; settle.
  - cbn. destruct Hpc. settle.
Qed.

Lemma pc_ok_mono st st' pc :
  (rows_for pk ip st <> [] -> rows_for pk ip st' <> []) ->
  pc_ok pk ip st pc -> pc_ok pk ip st' pc.
Proof. destruct pc; cbn; tauto. Qed.

Lemma system_step_invariant i sys :
  Inv cfg all pk ip sys -> Inv cfg all pk ip (system_step cfg i sys).
Proof.
  intros [P L C]. unfold system_step.
  destruct (callers sys !! i) as [[r pc]|] eqn:E; [|now split].
  destruct (C i r pc E) as [T Hpc].
  destruct (step_invariant r pc (store sys) T P L Hpc)
    as (P' & L' & Hpc' & Mono & _).
  destruct (step r pc (store sys)) as [pc' st'] eqn:S. cbn [fst snd] in *.
  split; cbn [store callers]; auto.
  intros j r' pc'' Hj.
  destruct (decide (i = j)) as [<-|NE].
  - rewrite list_lookup_insert_eq in Hj by (eapply lookup_lt_Some; eauto).
    injection Hj as <- <-. auto.
  - rewrite list_lookup_insert_ne in Hj by done.
    destruct (C j r' pc'' Hj). split; [auto|]. eapply pc_ok_mono; eauto.
Qed.

Lemma system_step_remaining i j sys :
  Inv cfg all pk ip sys ->
  remaining_at j (system_step cfg i sys)
  <= remaining_at j sys - (if decide (i = j) then 1 else 0).
Proof.
  intros [P L C]. unfold system_step, remaining_at.
  destruct (callers sys !! i) as [[r pc]|] eqn:E.
  - destruct (C i r pc E) as [T Hpc].
    destruct (step_invariant r pc (store sys) T P L Hpc)
      as (_ & _ & _ & _ & M).
    destruct (step r pc (store sys)) as [pc' st'] eqn:S. cbn [fst snd] in *.
    cbn [callers]. destruct (decide (i = j)) as [<-|NE].
    + rewrite list_lookup_insert_eq by (eapply lookup_lt_Some; eauto).
      now rewrite E.
    + rewrite list_lookup_insert_ne by done.
      destruct (callers sys !! j) as [[? ?]|]; lia.
  - destruct (decide (i = j)) as [<-|NE].
    + rewrite E. lia.
    + destruct (callers sys !! j) as [[? ?]|]; lia.
Qed.

Lemma system_step_requests i sys :
  (callers (system_step cfg i sys)).*1 = (callers sys).*1.
Proof.
  unfold system_step.
  destruct (callers sys !! i) as [[r pc]|] eqn:E; [|reflexivity].
  destruct (step r pc (store sys)) as [pc' st']. cbn [callers].
  rewrite list_fmap_insert. cbn [fst].
  apply list_insert_id. rewrite list_lookup_fmap, E. reflexivity.
Qed.

Lemma run_invariant schedule sys :
  Inv cfg all pk ip sys -> Inv cfg all pk ip (run cfg schedule sys).
Proof.
  revert sys. induction schedule as [|i rest IH]; intros sys H; [exact H|].
  apply IH, system_step_invariant, H.
Qed.

Lemma run_requests schedule sys :
  (callers (run cfg schedule sys)).*1 = (callers sys).*1.
Proof.
  revert sys. induction schedule as [|i rest IH]; intros sys; [reflexivity|].
  cbn [run foldl].
  change ((callers (run cfg rest (system_step cfg i sys))).*1 = (callers sys).*1).
  now rewrite IH, system_step_requests.
Qed.

Lemma run_remaining schedule j sys :
  Inv cfg all pk ip sys ->
  remaining_at j (run cfg schedule sys)
  <= remaining_at j sys - count_occ Nat.eq_dec schedule j.
Proof.
  revert sys. induction schedule as [|i rest IH]; intros sys H.
  - cbn. lia.
  - change (remaining_at j (run cfg rest (system_step cfg i sys))
            <= remaining_at j sys - count_occ Nat.eq_dec (i :: rest) j).
    pose proof (IH _ (system_step_invariant i sys H)) as H1.
    pose proof (system_step_remaining i j sys H) as H2.
    cbn [count_occ]. destruct (Nat.eq_dec i j) as [->|NE].
    + rewrite decide_True in H2 by done. lia.
    + rewrite decide_False in H2 by done. lia.
Qed.

Lemma start_invariant st requests :
  properties st = all -> length (rows_for pk ip st) <= 1 ->
  Forall (targets cfg all pk ip) requests ->
  Inv cfg all pk ip (start st requests).
Proof.
  intros P L T. split; cbn [start store callers]; auto.
  intros j r pc Hj. rewrite list_lookup_fmap in Hj.
  destruct (requests !! j) as [r'|] eqn:E; [|discriminate].
  injection Hj as <- <-. split; [|exact I].
  rewrite Forall_forall in T. apply T. eapply list_elem_of_lookup_2; eauto.
Qed.

End Interleaving.

(** Alone, a caller's four steps are [track_view]: the program points
    cut the handler at its store accesses and add or lose nothing. *)
Lemma track_view_steps cfg request st :
  Nat.iter 4
    (fun '(pc, st) =>
       track_view_step cfg request pc st)
    (AtGetObject, st)
  = (Finished
       (track_view cfg request st).1,
     (track_view cfg request st).2).
Proof.
  rewrite track_view_unfold. unfold Nat.iter. cbn [nat_rect track_view_step].
  rewrite get_object_pure.
  destruct (resolve _ request (properties st)) as [e|obj];
    [reflexivity|].
  unfold get_or_create, try_except.
  destruct (get_client_ip request) as [a|].
  - destruct (List.filter (same_visitor (id obj) a) (views st))
      as [|v [|w l]] eqn:F;
      do 3 (cbn [track_view_step is_DoesNotExist is_IntegrityError fst snd];
            unfold views_get, views_create, bind, get_store, raise, ret,
              put_store;
            rewrite ?F, ?(existsb_filter_nil _ _ F), ?andb_false_r);
      reflexivity.
  - do 3 (cbn [track_view_step is_DoesNotExist is_IntegrityError fst snd];
          unfold views_get, views_create, bind, get_store, raise, ret,
            put_store);
      reflexivity.
Qed.

(** C9: with (property, ip_address) declared unique, two callers tracking
    a view of the same listing from the same address, their store
    accesses interleaved in any order, never leave more than one row for
    the pair; a caller that has finished was answered with the
    acknowledgement, never with an error; and once each caller has had
    its four turns both are finished and exactly one row exists. *)
Theorem concurrent_track_view_one_row cfg st pk ip r1 r2 schedule :
  unique_together cfg = true ->
  length (rows_for pk ip st) <= 1 ->
  views_listing_from cfg st pk ip r1 ->
  views_listing_from cfg st pk ip r2 ->
  let sys :=
    run cfg schedule (start st [r1; r2]) in
  length (rows_for pk ip (store sys)) <= 1 /\
  (forall j r res,
     callers sys !! j = Some (r, Finished res) -> res = inr view_tracked) /\
  (4 <= count_occ Nat.eq_dec schedule 0 ->
   4 <= count_occ Nat.eq_dec schedule 1 ->
   callers sys = [(r1, Finished (inr view_tracked));
                  (r2, Finished (inr view_tracked))] /\
   length (rows_for pk ip (store sys)) = 1).
Proof.
  intros U L H1 H2 sys.
  assert (Forall (targets cfg (properties st) pk ip) [r1; r2]) as T.
  { apply Forall_cons; split; [|apply Forall_cons; split; [|constructor]];
      [destruct H1 as [(obj & G & Hid) Hip]|destruct H2 as [(obj & G & Hid) Hip]];
      rewrite get_object_pure in G; injection G as G;
      (split; [eauto|exact Hip]). }
  pose proof (run_invariant cfg (properties st) pk ip U schedule _
                (start_invariant cfg (properties st) pk ip st [r1; r2] eq_refl L T))
    as HI.
  fold sys in HI. destruct HI as [P Lr C].
  split; [exact Lr|]. split.
  { intros j r res Hj. now destruct (C j r _ Hj) as [_ [-> _]]. }
  intros N0 N1.
  pose proof (run_requests cfg schedule (start st [r1; r2])) as Rq.
  fold sys in Rq. cbn [start callers map fmap list_fmap fst] in Rq.
  pose proof (run_remaining cfg (properties st) pk ip U schedule 0 _
                (start_invariant cfg (properties st) pk ip st [r1; r2] eq_refl L T))
    as M0.
  pose proof (run_remaining cfg (properties st) pk ip U schedule 1 _
                (start_invariant cfg (properties st) pk ip st [r1; r2] eq_refl L T))
    as M1.
  fold sys in M0, M1. unfold remaining_at in M0, M1.
  destruct (callers sys) as [|[a pc1] [|[b pc2] [|? ?]]]; try discriminate.
  cbn in Rq. injection Rq as -> ->.
  cbn in M0, M1.
  destruct pc1; cbn in M0; try lia. destruct pc2; cbn in M1; try lia.
  destruct (C 0 r1 _ eq_refl) as [_ [-> NE]].
  destruct (C 1 r2 _ eq_refl) as [_ [-> _]].
  split; [reflexivity|].
  destruct (rows_for pk ip (store sys)) as [|v [|w l]]; cbn in *;
    [congruence|reflexivity|lia].
Qed.

(** ** The handlers on the spec's scenario *)

Import Sample.

Example scenario_range_hit :
  Sample.search (GET [("min_price", "200000"); ("max_price", "300000")]) catalog
  = (inr [P101], catalog).
Proof. vm_compute. reflexivity. Qed.

Example scenario_range_miss :
  Sample.search (GET [("max_price", "100000")]) catalog = (inr [], catalog).
Proof. vm_compute. reflexivity. Qed.

Example scenario_two_views :
  (serve Sample.track [Sample.viewer 101 "Firefox"; Sample.viewer 101 "Safari"]
     catalog).2
  = add_view {| view_property := 101; ip_address := "10.0.0.5";
                user_agent := "Firefox" |} catalog.
Proof. vm_compute. reflexivity. Qed.

Example scenario_forwarded_for :
  get_client_ip (Sample.proxied_viewer 101 "curl") = Some "10.0.0.5".
Proof. vm_compute. reflexivity. Qed.

Example scenario_forwarded_for_keeps_blanks :
  get_client_ip (POST 101 [("HTTP_X_FORWARDED_FOR", " 10.0.0.5 , 172.16.0.1")] [])
  = Some " 10.0.0.5 ".
Proof. vm_compute. reflexivity. Qed.

Example scenario_unavailable :
  Sample.track (Sample.viewer 102 "Firefox") catalog = (inl Http404, catalog).
Proof. vm_compute. reflexivity. Qed.

Example scenario_ordering_mixed :
  get_ordering ordering_fields ordering
    (query_params (GET [("ordering", "-price, title ,area")]))
  = ["-price"; "area"].
Proof. vm_compute. reflexivity. Qed.

(** Without the uniqueness declaration the same interleaving writes two
    rows for one pair: both callers read "absent" before either inserts. *)
Example race_without_uniqueness :
  views (store
           (run Sample.cfg_no_unique [0; 1; 0; 1; 0; 1]%nat
              (start catalog
                 [Sample.viewer 101 "Firefox"; Sample.viewer 101 "curl"])))
  = [ {| view_property := 101; ip_address := "10.0.0.5";
         user_agent := "Firefox" |};
      {| view_property := 101; ip_address := "10.0.0.5";
         user_agent := "curl" |} ].
Proof. vm_compute. reflexivity. Qed.

(** ** Instances of the theorems and refutations of the claims that fail *)

Lemma search_returns_only_available_witness :
  Sample.search (GET [("min_price", "100000"); ("ordering", "price")]) catalog
  = (inr [P103; P101], catalog) /\
  Forall (fun p => is_available p = true) [P103; P101].
Proof.
  assert (Sample.search (GET [("min_price", "100000"); ("ordering", "price")])
            catalog = (inr [P103; P101], catalog)) as H
    by (vm_compute; reflexivity).
  split; [exact H|].
  exact (search_returns_only_available Sample.cfg _ catalog [P103; P101]
           catalog H).
Defined.

Ltac bounds_readable :=
  intros raw [E NE]; vm_compute in E;
  first [ discriminate E
        | injection E as <-; vm_compute; eexists; reflexivity ].

Lemma range_bounds_inclusive_independent_witness :
  let request := GET [("min_price", "200000"); ("max_price", "300000")] in
  well_formed_bounds Sample.cfg request /\
  exists qs,
    get_queryset Sample.cfg request catalog = (inr qs, catalog) /\
    (forall p, p ∈ qs <->
       p ∈ properties catalog /\ is_available p = true /\
       in_bounds Sample.cfg request p) /\
    (forall results st',
       list_action Sample.cfg request catalog = (inr results, st') ->
       forall p, p ∈ results -> in_bounds Sample.cfg request p).
Proof.
  intros request.
  assert (well_formed_bounds Sample.cfg request) as W
    by (split; [|split; [|split]]; bounds_readable).
  split; [exact W|].
  exact (range_bounds_inclusive_independent Sample.cfg request catalog W).
Defined.

(** Counterexample to the rejection of every malformed bound: a bound
    supplied as the empty string is not a number, yet the search is not
    rejected; it answers as if the bound had been left out. *)
Lemma empty_bound_silently_ignored :
  query_params (GET [("min_price", "")]) !! "min_price" = Some "" /\
  to_python "" = None /\
  Sample.search (GET [("min_price", "")]) catalog = (inr [P103; P101], catalog) /\
  Sample.search (GET []) catalog = (inr [P103; P101], catalog).
Proof. vm_compute. repeat split; reflexivity. Qed.

Lemma malformed_bound_dropped_or_raises_witness :
  let request := GET [("min_price", "abc")] in
  "min_price" ∈ range_params /\
  query_params request !! "min_price" = Some "abc" /\
  coercion_of Sample.cfg "min_price" "abc" = None /\
  exists lookup raw',
    get_queryset Sample.cfg request catalog
    = (inl (FieldValueError lookup raw'), catalog) /\
    list_action Sample.cfg request catalog
    = (inl (FieldValueError lookup raw'), catalog).
Proof.
  intros request.
  assert ("min_price" ∈ range_params) as H1 by apply list_elem_of_here.
  assert (query_params request !! "min_price" = Some "abc") as H2
    by (vm_compute; reflexivity).
  assert (coercion_of Sample.cfg "min_price" "abc" = None) as H3
    by (vm_compute; reflexivity).
  split; [exact H1|]. split; [exact H2|]. split; [exact H3|].
  apply (malformed_bound_dropped_or_raises Sample.cfg request catalog
           "min_price" "abc" H1 H2 H3).
  discriminate.
Defined.

(** Counterexample to the rejection of unsupported sort keys: ordering
    by a field outside the list is not rejected; the search answers,
    sorted by the default ordering. *)
Lemma unsupported_sort_key_not_rejected :
  query_params (GET [("ordering", "title")]) !! "ordering" = Some "title" /\
  term_valid ordering_fields "title" = false /\
  Sample.search (GET [("ordering", "title")]) catalog
  = (inr [P103; P101], catalog) /\
  Sample.search (GET []) catalog = (inr [P103; P101], catalog).
Proof. vm_compute. repeat split; reflexivity. Qed.

Lemma unsupported_sort_key_dropped_witness :
  let request := GET [("ordering", "title,-price")] in
  names_unsupported_field request /\
  OrderingFilter Sample.cfg request [P101; P103]
  = inr (order_by Sample.sorter ["-price"] [P101; P103]) /\
  OrderingFilter Sample.cfg (GET [("ordering", "title")]) [P101; P103]
  = inr (order_by Sample.sorter ["-created_at"] [P101; P103]).
Proof.
  intros request.
  assert (names_unsupported_field request) as H.
  { exists "title". split; [|reflexivity].
    apply (list_elem_of_here "title" ["-price"]). }
  assert (names_unsupported_field (GET [("ordering", "title")])) as H'.
  { exists "title". split; [|reflexivity].
    apply (list_elem_of_here "title" []). }
  split; [exact H|]. split.
  - exact (proj1 (unsupported_sort_key_dropped Sample.cfg request [P101; P103] H)).
  - apply (proj2 (unsupported_sort_key_dropped Sample.cfg _ [P101; P103] H')).
    repeat constructor.
Defined.

Lemma track_view_idempotent_witness :
  let first := Sample.viewer 101 "Firefox" in
  let later := [Sample.proxied_viewer 101 "curl"; Sample.viewer 101 "Safari"] in
  let v := {| view_property := 101; ip_address := "10.0.0.5";
              user_agent := "Firefox" |} in
  rows_for 101 "10.0.0.5" catalog = [] /\
  Forall (views_listing_from Sample.cfg catalog 101 "10.0.0.5") (first :: later) /\
  serve Sample.track (first :: later) catalog
  = (replicate 3 (inr view_tracked), add_view v catalog) /\
  rows_for 101 "10.0.0.5" (add_view v catalog) = [v].
Proof.
  intros first later v.
  assert (rows_for 101 "10.0.0.5" catalog = []) as H1 by reflexivity.
  assert (Forall (views_listing_from Sample.cfg catalog 101 "10.0.0.5")
            (first :: later)) as H2.
  { repeat (apply Forall_cons; split); [..|constructor];
      (split; [exists P101; split|]; vm_compute; reflexivity). }
  split; [exact H1|]. split; [exact H2|].
  exact (track_view_idempotent Sample.cfg catalog 101 "10.0.0.5"
           first later H1 H2).
Defined.

Lemma invalid_inquiry_creates_nothing_witness :
  let f := serializer_char "email" true in
  f ∈ inquiry_fields_decl /\
  offending f (data Sample.blank_contact) /\
  (Sample.ask 77 Sample.blank_contact catalog).2 = catalog /\
  exists errs,
    Sample.ask 77 Sample.blank_contact catalog
    = (inr {| payload := PErrors errs; status := HTTP_400_BAD_REQUEST |},
       catalog) /\
    is_Some (errs !! "email").
Proof.
  intros f.
  assert (f ∈ inquiry_fields_decl) as H1
    by (apply list_elem_of_further, list_elem_of_here).
  assert (offending f (data Sample.blank_contact)) as H2.
  { right. exists "", ["This field may not be blank."].
    split; vm_compute; reflexivity. }
  destruct (invalid_inquiry_creates_nothing Sample.cfg 77
              Sample.blank_contact catalog f H1 H2) as [S R].
  split; [exact H1|]. split; [exact H2|]. split; [exact S|].
  destruct (R P101) as (errs & E & K & _); [vm_compute; reflexivity|].
  exists errs. split; [exact E|exact K].
Defined.

Ltac field_satisfied :=
  intros [[R N]|(s & m & L & T)];
  [ vm_compute in R, N; congruence
  | vm_compute in L; first [discriminate L | injection L as <-];
    vm_compute in T; discriminate T ].

Lemma valid_inquiry_creates_one_witness :
  Sample.object Sample.full_contact catalog = (inr P101, catalog) /\
  Forall (fun f => ~ offending f (data Sample.full_contact)) inquiry_fields_decl /\
  ("status" ∉ map field_name inquiry_fields_decl) /\
  exists i,
    Sample.ask 77 Sample.full_contact catalog
    = (inr {| payload := PInquiry i; status := HTTP_201_CREATED |},
       add_inquiry i catalog) /\
    inquiries (add_inquiry i catalog) = [i] /\
    inquiry_property i = 101%Z /\
    inquiry_status i = "submitted" /\
    inquiry_id i = 1%Z /\
    inquiry_created_at i = 77%Z.
Proof.
  assert (Sample.object Sample.full_contact catalog = (inr P101, catalog)) as H1
    by (vm_compute; reflexivity).
  assert (Forall (fun f => ~ offending f (data Sample.full_contact))
            inquiry_fields_decl) as H2
    by (repeat (apply Forall_cons; split); [..|constructor]; field_satisfied).
  assert ("status" ∉ map field_name inquiry_fields_decl) as H3.
  { intros H. apply list_elem_of_In in H. vm_compute in H.
    repeat (destruct H as [H|H]; [discriminate H|]). exact H. }
  split; [exact H1|]. split; [exact H2|]. split; [exact H3|].
  destruct (valid_inquiry_creates_one Sample.cfg 77
              Sample.full_contact catalog P101 H1 H2 H3)
    as (i & E & I & _ & _ & B & S & K & T & _).
  exists i. repeat (split; [assumption|]). exact T.
Defined.

Lemma unavailable_listing_not_found_witness :
  let request := Sample.viewer 102 "Firefox" in
  NoDup (id <$> properties catalog) /\
  P102 ∈ properties catalog /\
  is_available P102 = false /\
  kwargs_pk request = id P102 /\
  Sample.track request catalog = (inl Http404, catalog) /\
  Sample.ask 77 request catalog = (inl Http404, catalog).
Proof.
  intros request.
  assert (NoDup (id <$> properties catalog)) as H1.
  { apply NoDup_ListNoDup. vm_compute.
    repeat (constructor; [vm_compute; intuition discriminate|]).
    constructor. }
  assert (P102 ∈ properties catalog) as H2
    by (apply list_elem_of_further, list_elem_of_here).
  split; [exact H1|]. split; [exact H2|].
  split; [reflexivity|]. split; [reflexivity|].
  destruct (unavailable_listing_not_found Sample.cfg 77 request
              catalog P102 H1 H2 eq_refl eq_refl) as (_ & _ & H).
  apply (H [P103; P101]). vm_compute. reflexivity.
Defined.

(** Counterexample to not-found on every request for an unavailable
    listing: [get_object] builds the query set from the request's own
    query string first, and a malformed range parameter there raises
    before the lookup. *)
Lemma unavailable_listing_malformed_query :
  let request :=
    {| kwargs_pk := 102; query_params := {[ "min_price" := "abc" ]};
       META := {[ "REMOTE_ADDR" := "10.0.0.5" ]}; data := ∅ |} in
  P102 ∈ properties catalog /\
  is_available P102 = false /\
  kwargs_pk request = id P102 /\
  Sample.track request catalog
  = (inl (FieldValueError "price__gte" "abc"), catalog) /\
  Sample.ask 77 request catalog
  = (inl (FieldValueError "price__gte" "abc"), catalog).
Proof.
  intros request. split; [apply list_elem_of_further, list_elem_of_here|].
  vm_compute. repeat split; reflexivity.
Qed.

Lemma concurrent_track_view_one_row_witness :
  let r1 := Sample.viewer 101 "Firefox" in
  let r2 := Sample.viewer 101 "curl" in
  let sys :=
    run Sample.cfg
      [0; 1; 0; 1; 0; 1; 0; 1]%nat (start catalog [r1; r2]) in
  unique_together Sample.cfg = true /\
  length (rows_for 101 "10.0.0.5" catalog) <= 1 /\
  views_listing_from Sample.cfg catalog 101 "10.0.0.5" r1 /\
  views_listing_from Sample.cfg catalog 101 "10.0.0.5" r2 /\
  callers sys = [(r1, Finished (inr view_tracked));
                 (r2, Finished (inr view_tracked))] /\
  length (rows_for 101 "10.0.0.5" (store sys)) = 1.
Proof.
  intros r1 r2 sys.
  assert (length (rows_for 101 "10.0.0.5" catalog) <= 1) as H0
    by (vm_compute; lia).
  assert (views_listing_from Sample.cfg catalog 101 "10.0.0.5" r1) as H1
    by (split; [exists P101; split|]; vm_compute; reflexivity).
  assert (views_listing_from Sample.cfg catalog 101 "10.0.0.5" r2) as H2
    by (split; [exists P101; split|]; vm_compute; reflexivity).
  split; [reflexivity|].
  split; [exact H0|]. split; [exact H1|]. split; [exact H2|].
  destruct (concurrent_track_view_one_row Sample.cfg catalog 101 "10.0.0.5" r1 r2
              [0; 1; 0; 1; 0; 1; 0; 1]%nat eq_refl H0 H1 H2) as (_ & _ & H).
  apply H; vm_compute; lia.
Defined.

(** * Further properties of the view set *)

(** ** Search: the whole of [get_queryset] *)

(** The raw value of a range parameter its column cannot read, if the
    parameter is supplied and such. *)
Definition unreadable (to_python : string -> option Q) (param : option string)
  : option string :=
  match param with
  | Some (String _ _ as raw) =>
      match to_python raw with
      | None => Some raw
      | Some _ => None
      end
  | _ => None
  end.

(** The lookup and raw value of the first unreadable bound, in the order
    in which [get_queryset] applies its filters. *)
Definition first_unreadable (cfg : Config) (params : gmap string string)
  : option (string * string) :=
  match unreadable (price_to_python cfg) (params !! "min_price") with
  | Some raw => Some ("price__gte", raw)
  | None =>
  match unreadable (price_to_python cfg) (params !! "max_price") with
  | Some raw => Some ("price__lte", raw)
  | None =>
  match unreadable (area_to_python cfg) (params !! "min_area") with
  | Some raw => Some ("area__gte", raw)
  | None =>
  match unreadable (area_to_python cfg) (params !! "max_area") with
  | Some raw => Some ("area__lte", raw)
  | None => None
  end end end end.

(** A range whose supplied, readable minimum lies above its supplied,
    readable maximum. *)
Definition inverted_range (to_python : string -> option Q)
  (request : Request) (min_param max_param : string) : Prop :=
  exists raw_lo raw_hi lo hi,
    supplied request min_param raw_lo /\ to_python raw_lo = Some lo /\
    supplied request max_param raw_hi /\ to_python raw_hi = Some hi /\
    (hi < lo)%Q.

Lemma filter_all_true {A} (f : A -> bool) l :
  (forall x, f x = true) -> List.filter f l = l.
Proof.
  intros H. induction l as [|x l IH]; simpl; [reflexivity|].
  now rewrite H, IH.
Qed.

Lemma filter_sublist_impl {A} (f g : A -> bool) l :
  (forall x, f x = true -> g x = true) ->
  List.filter f l `sublist_of` List.filter g l.
Proof.
  intros H. induction l as [|x l IH]; simpl; [constructor|].
  destruct (f x) eqn:F.
  - rewrite (H x F). now constructor.
  - destruct (g x); [now constructor|exact IH].
Qed.

Lemma within_not_supplied op to_python param x :
  Py.truthy param = false -> within op to_python param x = true.
Proof. unfold within. now intros ->. Qed.

Lemma range_filter_unreadable lookup column op to_python param qs :
  range_filter lookup column op to_python param qs
  = match unreadable to_python param with
    | Some raw => inl (FieldValueError lookup raw)
    | None =>
        inr (List.filter (fun p => within op to_python param (column p)) qs)
    end.
Proof.
  unfold range_filter, unreadable, filter_lookup, within.
  destruct param as [[|c s]|]; simpl;
    try (now rewrite filter_all_true).
  destruct (to_python (String c s)); reflexivity.
Qed.

Lemma queryset_of_first_unreadable cfg params all :
  queryset_of cfg params all
  = match first_unreadable cfg params with
    | Some (lookup, raw) => inl (FieldValueError lookup raw)
    | None => inr (List.filter (matches_search cfg params) all)
    end.
Proof.
  unfold queryset_of, first_unreadable. rewrite range_filter_unreadable.
  destruct (unreadable _ (params !! "min_price")); [reflexivity|].
  cbn [ebind]. rewrite range_filter_unreadable.
  destruct (unreadable _ (params !! "max_price")); [reflexivity|].
  cbn [ebind]. rewrite range_filter_unreadable.
  destruct (unreadable _ (params !! "min_area")); [reflexivity|].
  cbn [ebind]. rewrite range_filter_unreadable.
  destruct (unreadable _ (params !! "max_area")); [reflexivity|].
  now rewrite !filter_fuse.
Qed.

(** X1: the list action and the object lookup never write: whatever
    the request, and whether they return or raise, the store they leave
    is the store they found. *)
Theorem reads_leave_store_unchanged cfg request st :
  (get_queryset cfg request st).2 = st /\
  (list_action cfg request st).2 = st /\
  (get_object cfg request st).2 = st.
Proof.
  split; [|split].
  - now rewrite get_queryset_pure.
  - now rewrite list_action_pure.
  - now rewrite get_object_pure.
Qed.

(** X2: [get_queryset] in full.  It raises for the first supplied bound
    its column cannot read, taken in the order min_price, max_price,
    min_area, max_area, naming that lookup and value; with none, it
    returns the catalogue, in catalogue order, filtered by availability
    and the conjunction of the supplied bounds. *)
Theorem get_queryset_first_unreadable_or_filtered cfg request st :
  get_queryset cfg request st
  = (match first_unreadable cfg (query_params request) with
     | Some (lookup, raw) => inl (FieldValueError lookup raw)
     | None =>
         inr (List.filter (matches_search cfg (query_params request))
                (properties st))
     end, st).
Proof.
  rewrite get_queryset_pure. f_equal.
  apply queryset_of_first_unreadable.
Qed.

Lemma first_unreadable_delete cfg params param :
  param ∈ range_params ->
  first_unreadable cfg params = None ->
  first_unreadable cfg (delete param params) = None.
Proof.
  unfold range_params. rewrite !elem_of_cons, elem_of_nil.
  unfold first_unreadable.
  intros [->|[->|[->|[->|[]]]]];
    rewrite lookup_delete_eq, !lookup_delete_ne by done; cbn [unreadable];
    repeat (match goal with
            | |- context [unreadable ?t ?p] => destruct (unreadable t p)
            end; try discriminate); reflexivity.
Qed.

Lemma matches_search_delete cfg params param p :
  param ∈ range_params ->
  matches_search cfg params p = true ->
  matches_search cfg (delete param params) p = true.
Proof.
  unfold range_params. rewrite !elem_of_cons, elem_of_nil.
  unfold matches_search.
  intros [->|[->|[->|[->|[]]]]];
    rewrite lookup_delete_eq, !lookup_delete_ne by done;
    rewrite !andb_true_iff; rewrite (within_not_supplied _ _ None) by done;
    tauto.
Qed.

(** X3: taking a range parameter away from a search that returns can
    only widen the result: the search still returns, and what it
    returned before is a sublist of what it returns now. *)
Theorem dropping_a_bound_widens cfg request st param qs :
  param ∈ range_params ->
  get_queryset cfg request st = (inr qs, st) ->
  exists qs',
    get_queryset cfg (without_param param request) st = (inr qs', st) /\
    qs `sublist_of` qs'.
Proof.
  intros Hin. rewrite !get_queryset_pure, !queryset_of_first_unreadable.
  cbn [without_param query_params].
  destruct (first_unreadable cfg (query_params request)) as [[l r]|] eqn:U;
    [discriminate|].
  rewrite (first_unreadable_delete _ _ _ Hin U). intros [= <-].
  eexists. split; [reflexivity|].
  apply filter_sublist_impl. intros p. now apply matches_search_delete.
Qed.

(** X4: a search whose minimum price lies above its maximum price, or
    whose minimum area lies above its maximum area, is not an error: it
    returns no rows. *)
Theorem inverted_range_returns_nothing cfg request st qs :
  inverted_range (price_to_python cfg) request "min_price" "max_price" \/
  inverted_range (area_to_python cfg) request "min_area" "max_area" ->
  get_queryset cfg request st = (inr qs, st) ->
  qs = [].
Proof.
  intros Hinv. rewrite get_queryset_pure. intros [= E].
  apply queryset_of_inr in E. subst qs.
  apply filter_all_false, Forall_forall. intros p _.
  destruct (matches_search cfg (query_params request) p) eqn:M; [|reflexivity].
  exfalso. apply matches_search_spec in M as (_ & B1 & B2 & B3 & B4).
  destruct Hinv as [(rl & rh & lo & hi & Sl & Pl & Sh & Ph & Lt)
                   |(rl & rh & lo & hi & Sl & Pl & Sh & Ph & Lt)].
  - destruct (B1 rl Sl) as (v1 & E1 & L1). destruct (B2 rh Sh) as (v2 & E2 & L2).
    rewrite Pl in E1. rewrite Ph in E2.
    injection E1 as <-. injection E2 as <-.
    apply (Qlt_not_le _ _ Lt). eapply Qle_trans; eauto.
  - destruct (B3 rl Sl) as (v1 & E1 & L1). destruct (B4 rh Sh) as (v2 & E2 & L2).
    rewrite Pl in E1. rewrite Ph in E2.
    injection E1 as <-. injection E2 as <-.
    apply (Qlt_not_le _ _ Lt). eapply Qle_trans; eauto.
Qed.

(** ** Object lookup and the request's own filters *)

Lemma visible_matches cfg request all qs p :
  visible cfg request all = inr qs -> p ∈ qs ->
  p ∈ all /\ matches_search cfg (query_params request) p = true.
Proof.
  unfold visible. intros H Hp.
  destruct (queryset_of _ _ _) as [|q] eqn:E; [discriminate|].
  cbn [ebind] in H. apply filter_queryset_narrows in H.
  apply queryset_of_inr in E. subst q.
  apply filter_elem_of. eapply elem_of_submseteq; eauto.
Qed.

Lemma list_action_visible cfg request st :
  list_action cfg request st = (visible cfg request (properties st), st).
Proof. now rewrite list_action_pure. Qed.

Lemma pick_inr pk qs obj :
  pick pk qs = inr obj -> obj ∈ qs /\ id obj = pk.
Proof.
  unfold pick.
  destruct (List.filter _ qs) as [|x [|y l]] eqn:F; try discriminate.
  intros [= ->].
  assert (obj ∈ List.filter (fun p => (id p =? pk)%Z) qs) as Hin
    by (rewrite F; apply list_elem_of_here).
  apply filter_elem_of in Hin as [Hin Hid]. now apply Z.eqb_eq in Hid.
Qed.

Lemma resolve_filtered_out cfg request all p qs :
  NoDup (id <$> all) -> p ∈ all -> kwargs_pk request = id p ->
  matches_search cfg (query_params request) p = false ->
  visible cfg request all = inr qs ->
  resolve cfg request all = inl Http404.
Proof.
  intros ND Hp Hpk M V. unfold resolve, pick. rewrite V. cbn [ebind].
  destruct (List.filter _ qs) as [|x l] eqn:F; [reflexivity|].
  exfalso.
  assert (x ∈ List.filter (fun p => (id p =? kwargs_pk request)%Z) qs)
    as Hin by (rewrite F; apply list_elem_of_here).
  apply filter_elem_of in Hin as [Hin Hid]. apply Z.eqb_eq in Hid.
  destruct (visible_matches _ _ _ _ _ V Hin) as [Hx Mx].
  assert (x = p) by (eapply primary_key_unique; eauto; congruence).
  congruence.
Qed.

(** X5: an object [get_object] resolves is one the list action returns
    for the same request: it has the URL's key, is in the catalogue, is
    available, satisfies the request's own range bounds, and the store
    is left as it was. *)
Theorem get_object_within_search_results cfg request st obj st' :
  get_object cfg request st = (inr obj, st') ->
  st' = st /\
  id obj = kwargs_pk request /\
  obj ∈ properties st /\
  is_available obj = true /\
  in_bounds cfg request obj /\
  exists results,
    list_action cfg request st = (inr results, st) /\ obj ∈ results.
Proof.
  rewrite get_object_pure, list_action_visible. intros [= R <-].
  unfold resolve in R.
  destruct (visible cfg request (properties st)) as [|qs] eqn:V;
    [discriminate|].
  cbn [ebind] in R. apply pick_inr in R as [Hin Hid].
  destruct (visible_matches _ _ _ _ _ V Hin) as [Hall M].
  apply matches_search_spec in M as [Ha Hb].
  repeat (split; [assumption || reflexivity|]). eauto.
Qed.

(** X6: the engagement handlers honour the range parameters of their
    own request: for a listing of the catalogue that one of them
    excludes, [track_view] and [inquire] answer not-found and write
    nothing, whenever the request's query set can be built. *)
Theorem engagement_honours_range_filters cfg now request st p results :
  NoDup (id <$> properties st) ->
  p ∈ properties st ->
  kwargs_pk request = id p ->
  ~ in_bounds cfg request p ->
  list_action cfg request st = (inr results, st) ->
  track_view cfg request st = (inl Http404, st) /\
  inquire cfg now request st = (inl Http404, st).
Proof.
  intros ND Hp Hpk NB L. rewrite list_action_visible in L. injection L as V.
  assert (matches_search cfg (query_params request) p = false) as M.
  { destruct (matches_search cfg (query_params request) p) eqn:M;
      [|reflexivity].
    apply matches_search_spec in M as [_ B]. contradiction. }
  rewrite track_view_unfold, inquire_unfold.
  now rewrite (resolve_filtered_out cfg request _ p results ND Hp Hpk M V).
Qed.

(** ** View tracking: what a call writes *)

Definition view_row (pk : Z) (ip : string) (request : Request) : PropertyView :=
  {| view_property := pk; ip_address := ip;
     user_agent := default "" (META request !! "HTTP_USER_AGENT") |}.

(** At most one row for every (listing, address) pair of the store. *)
Definition one_row_per_visitor (st : Store) : Prop :=
  forall pk ip, length (rows_for pk ip st) <= 1.

Lemma get_or_create_cases cfg pk ip ua st :
  get_or_create cfg pk ip ua st
  = match ip with
    | None => (inl IntegrityError, st)
    | Some a =>
        match rows_for pk a st with
        | [] =>
            let v := {| view_property := pk; ip_address := a;
                        user_agent := ua |} in
            (inr (v, true), add_view v st)
        | [v] => (inr (v, false), st)
        | _ => (inl MultipleObjectsReturned, st)
        end
    end.
Proof.
  destruct ip as [a|]; [|reflexivity].
  destruct (rows_for pk a st) as [|v [|w l]] eqn:F.
  - now apply get_or_create_absent.
  - now apply get_or_create_present.
  - unfold rows_for in F.
    unfold get_or_create, try_except, views_get, bind, get_store, raise, ret.
    now rewrite F.
Qed.

Lemma track_view_cases cfg request st :
  track_view cfg request st
  = match resolve cfg request (properties st) with
    | inl e => (inl e, st)
    | inr obj =>
        match get_client_ip request with
        | None => (inl IntegrityError, st)
        | Some a =>
            match rows_for (id obj) a st with
            | [] => (inr view_tracked, add_view (view_row (id obj) a request) st)
            | [_] => (inr view_tracked, st)
            | _ => (inl MultipleObjectsReturned, st)
            end
        end
    end.
Proof.
  rewrite track_view_unfold.
  destruct (resolve cfg request (properties st)) as [|obj]; [reflexivity|].
  rewrite get_or_create_cases.
  destruct (get_client_ip request) as [a|]; [|reflexivity].
  destruct (rows_for (id obj) a st) as [|v [|w l]]; reflexivity.
Qed.

Lemma same_visitor_true pk ip v :
  same_visitor pk ip v = true -> view_property v = pk /\ ip_address v = ip.
Proof.
  unfold same_visitor. rewrite andb_true_iff, Z.eqb_eq, String.eqb_eq. tauto.
Qed.

Lemma rows_for_add_view_other pk ip v st :
  (view_property v, ip_address v) <> (pk, ip) ->
  rows_for pk ip (add_view v st) = rows_for pk ip st.
Proof.
  intros NE. unfold rows_for, add_view. cbn [views].
  rewrite List.filter_app. cbn [List.filter].
  destruct (same_visitor pk ip v) eqn:S; [|apply app_nil_r].
  apply same_visitor_true in S as [<- <-]. congruence.
Qed.

(** X7: what [track_view] may write.  Whatever the request, the store it
    leaves is either the store it found, or that store with one row
    appended to the views, and then the call was acknowledged, the row
    is for the URL's listing, the request's attribution address and its
    user agent, and no row existed for that pair; listings and inquiries
    are never touched, and a call that raises writes nothing. *)
Theorem track_view_writes_at_most_one_row cfg request st :
  let res := (track_view cfg request st).1 in
  let st' := (track_view cfg request st).2 in
  (st' = st \/
   exists ip,
     get_client_ip request = Some ip /\
     res = inr view_tracked /\
     rows_for (kwargs_pk request) ip st = [] /\
     st' = add_view (view_row (kwargs_pk request) ip request) st) /\
  properties st' = properties st /\
  inquiries st' = inquiries st /\
  inquiry_seq st' = inquiry_seq st /\
  (forall e, res = inl e -> st' = st).
Proof.
  cbv zeta. rewrite track_view_cases.
  destruct (resolve cfg request (properties st)) as [e|obj] eqn:R;
    [cbn; intuition|].
  apply resolve_inr in R as (_ & _ & <-).
  destruct (get_client_ip request) as [a|]; [|cbn; intuition].
  destruct (rows_for (id obj) a st) as [|v [|w l]] eqn:F; cbn;
    try (intuition; fail).
  repeat split; try discriminate.
  right. exists a. rewrite F. auto.
Qed.

Lemma track_view_keeps_one_row cfg request st :
  one_row_per_visitor st ->
  one_row_per_visitor (track_view cfg request st).2.
Proof.
  intros Inv. rewrite track_view_cases.
  destruct (resolve cfg request (properties st)) as [e|obj]; [exact Inv|].
  destruct (get_client_ip request) as [a|]; [|exact Inv].
  destruct (rows_for (id obj) a st) as [|v [|w l]] eqn:F; try exact Inv.
  cbn [snd]. intros pk ip.
  destruct (decide ((id obj, a) = (pk, ip))) as [[= <- <-]|NE].
  - unfold view_row. rewrite rows_for_add_view, F. cbn. lia.
  - rewrite rows_for_add_view_other by exact NE. apply Inv.
Qed.

(** X8: served one after the other, [track_view] calls keep the store
    at one row at most for every (listing, address) pair, whatever the
    requests are and whether or not the table declares the pair unique. *)
Theorem serving_track_view_keeps_one_row_per_visitor cfg requests st :
  one_row_per_visitor st ->
  one_row_per_visitor (serve (track_view cfg) requests st).2.
Proof.
  revert st. induction requests as [|r rs IH]; intros st Inv; [exact Inv|].
  cbn [serve].
  pose proof (track_view_keeps_one_row cfg r st Inv) as Inv1.
  destruct (track_view cfg r st) as [res st1]. cbn [snd] in Inv1.
  specialize (IH st1 Inv1).
  destruct (serve (track_view cfg) rs st1) as [ress st2]. exact IH.
Qed.

(** X9: tracking a view for one (listing, address) pair never changes
    the rows of another pair. *)
Theorem track_view_leaves_other_pairs cfg request st pk ip :
  (kwargs_pk request, get_client_ip request) <> (pk, Some ip) ->
  rows_for pk ip (track_view cfg request st).2 = rows_for pk ip st.
Proof.
  intros NE. rewrite track_view_cases.
  destruct (resolve cfg request (properties st)) as [e|obj] eqn:R;
    [reflexivity|].
  apply resolve_inr in R as (_ & _ & Hid).
  destruct (get_client_ip request) as [a|]; [|reflexivity].
  destruct (rows_for (id obj) a st) as [|v [|w l]]; try reflexivity.
  cbn [snd]. apply rows_for_add_view_other. cbn. congruence.
Qed.

(** X10: a store that already holds two or more rows for the pair makes
    [track_view] raise the multiple-objects error of the lookup and write
    nothing; the call is not acknowledged. *)
Theorem track_view_raises_on_duplicate_rows cfg request st pk ip v w l :
  views_listing_from cfg st pk ip request ->
  rows_for pk ip st = v :: w :: l ->
  track_view cfg request st = (inl MultipleObjectsReturned, st).
Proof.
  intros [(obj & G & Hid) Hip] F. rewrite get_object_pure in G.
  injection G as G. now rewrite track_view_cases, G, Hip, Hid, F.
Qed.

(** ** View tracking: distinct visitors *)

Definition add_views (rows : list PropertyView) (st : Store) : Store :=
  {| properties := properties st; views := views st ++ rows;
     inquiries := inquiries st; inquiry_seq := inquiry_seq st |}.

Lemma add_views_nil st : add_views [] st = st.
Proof. destruct st. unfold add_views. cbn. now rewrite app_nil_r. Qed.

Lemma add_views_cons v rows st :
  add_views rows (add_view v st) = add_views (v :: rows) st.
Proof. unfold add_views, add_view. cbn. now rewrite <- app_assoc. Qed.

Lemma serve_distinct_visitors cfg all pk (visits : list (Request * string)) :
  forall st,
    properties st = all ->
    Forall (fun v => targets cfg all pk v.2 v.1) visits ->
    NoDup visits.*2 ->
    Forall (fun ip => rows_for pk ip st = []) visits.*2 ->
    serve (track_view cfg) visits.*1 st
    = (replicate (length visits) (inr view_tracked),
       add_views (map (fun v => view_row pk v.2 v.1) visits) st).
Proof.
  induction visits as [|[r ip] rest IH]; intros st P T ND E.
  - cbn. now rewrite add_views_nil.
  - rewrite fmap_cons in ND, E. cbn [fst snd] in ND, E.
    apply NoDup_cons in ND as [Hnew ND].
    apply Forall_cons in T as [[(obj & R & Hid) Hip] T].
    apply Forall_cons in E as [E0 E].
    cbn [fst snd] in R, Hid, Hip.
    rewrite fmap_cons. cbn [serve fst length replicate map snd].
    rewrite track_view_cases, P, R, Hip, Hid, E0.
    rewrite (IH (add_view (view_row pk ip r) st)); auto.
    + now rewrite add_views_cons.
    + rewrite Forall_forall in E.
      apply Forall_forall. intros ip' Hin.
      rewrite rows_for_add_view_other; [now apply E|].
      cbn. intros [= ->]. contradiction.
Qed.

(** X11: visitors with pairwise distinct addresses are counted one by
    one: served in turn on a listing none of them has a row for, every
    call is acknowledged and the store gains exactly one row per visitor,
    in the order of the calls, each with that visitor's address and user
    agent. *)
Theorem distinct_visitors_each_get_a_row cfg st pk
  (visits : list (Request * string)) :
  Forall (fun v => views_listing_from cfg st pk v.2 v.1) visits ->
  NoDup visits.*2 ->
  Forall (fun ip => rows_for pk ip st = []) visits.*2 ->
  serve (track_view cfg) visits.*1 st
  = (replicate (length visits) (inr view_tracked),
     add_views (map (fun v => view_row pk v.2 v.1) visits) st).
Proof.
  intros T ND E. apply (serve_distinct_visitors cfg (properties st)); auto.
  eapply Forall_impl; [exact T|].
  intros [r ip] [(obj & G & Hid) Hip]. cbn [fst snd] in *.
  rewrite get_object_pure in G. injection G as G. split; eauto.
Qed.

(** ** Inquiries: what a call writes *)

(** X12: what [inquire] may write.  Whatever the request, the store it
    leaves is either the store it found, or that store with one inquiry
    appended, and then the answer is 201 with that inquiry, which is
    bound to the URL's listing and carries the next key and the time of
    the call; views and listings are never touched; an answer is 201 or
    400, and a 400 or a raised error writes nothing. *)
Theorem inquire_writes_at_most_one_inquiry cfg now request st :
  let res := (inquire cfg now request st).1 in
  let st' := (inquire cfg now request st).2 in
  (st' = st \/
   exists i,
     res = inr {| payload := PInquiry i; status := HTTP_201_CREATED |} /\
     st' = add_inquiry i st /\
     inquiry_property i = kwargs_pk request /\
     inquiry_id i = (inquiry_seq st + 1)%Z /\
     inquiry_created_at i = now) /\
  views st' = views st /\
  properties st' = properties st /\
  (forall resp, res = inr resp ->
     status resp = HTTP_201_CREATED \/
     (status resp = HTTP_400_BAD_REQUEST /\ st' = st)) /\
  (forall e, res = inl e -> st' = st).
Proof.
  cbv zeta. rewrite inquire_unfold.
  destruct (resolve cfg request (properties st)) as [e|obj] eqn:R.
  { cbn. repeat split; auto; discriminate. }
  apply resolve_inr in R as (_ & _ & Hid). cbv zeta.
  destruct (is_valid _); cbn [fst snd].
  - split; [right; eexists; repeat split; exact Hid|].
    repeat split; try discriminate. intros resp [= <-]. now left.
  - split; [now left|]. repeat split; try discriminate.
    intros resp [= <-]. now right.
Qed.

Lemma serve_repeated_inquiry cfg now request obj n :
  is_valid (make_serializer (PropertyInquirySerializer cfg) (data request))
  = true ->
  forall st,
    resolve cfg request (properties st) = inr obj ->
    let r := serve (inquire cfg now) (replicate n request) st in
    length r.1 = n /\
    Forall (fun res => exists i,
              res = inr {| payload := PInquiry i;
                           status := HTTP_201_CREATED |} /\
              inquiry_property i = id obj) r.1 /\
    length (inquiries r.2) = (length (inquiries st) + n)%nat /\
    inquiry_seq r.2 = (inquiry_seq st + Z.of_nat n)%Z.
Proof.
  intros V. induction n as [|n IH]; intros st R.
  - cbn. repeat split; auto with lia.
  - cbn [replicate serve]. rewrite inquire_unfold, R. cbv zeta. rewrite V.
    match goal with
    | |- context [add_inquiry ?i st] => set (i0 := i)
    end.
    specialize (IH (add_inquiry i0 st) R).
    destruct (serve (inquire cfg now) (replicate n request) (add_inquiry i0 st))
      as [ress st2].
    cbn [fst snd] in *. destruct IH as (L & F & N & S).
    repeat split.
    + cbn. now rewrite L.
    + apply Forall_cons. split; [exists i0; auto|exact F].
    + rewrite N. cbn [add_inquiry inquiries]. rewrite length_app. cbn. lia.
    + rewrite S. cbn [add_inquiry inquiry_seq i0 inquiry_id]. lia.
Qed.

(** X13: inquiries are not de-duplicated: submitting the same valid
    inquiry n times to a listing that resolves answers 201 each time and
    leaves n more inquiries in the store, all bound to that listing, the
    key sequence advanced by n. *)
Theorem repeated_inquiry_creates_each_time cfg now request st obj n :
  get_object cfg request st = (inr obj, st) ->
  Forall (fun f => ~ offending f (data request))
    (PropertyInquirySerializer cfg) ->
  let r := serve (inquire cfg now) (replicate n request) st in
  length r.1 = n /\
  Forall (fun res => exists i,
            res = inr {| payload := PInquiry i;
                         status := HTTP_201_CREATED |} /\
            inquiry_property i = id obj) r.1 /\
  length (inquiries r.2) = (length (inquiries st) + n)%nat /\
  inquiry_seq r.2 = (inquiry_seq st + Z.of_nat n)%Z.
Proof.
  intros G Hok. rewrite get_object_pure in G. injection G as G.
  apply serve_repeated_inquiry; [now apply is_valid_true|exact G].
Qed.

Lemma validate_fields_value fields d e0 v0 k v :
  (validate_fields fields d e0 v0).2 !! k = Some v ->
  v0 !! k = Some v \/
  exists f, f ∈ fields /\ field_name f = k /\
            run_validation f (d !! k) = Valid v.
Proof.
  revert e0 v0. induction fields as [|f rest IH]; intros e0 v0;
    cbn [validate_fields]; [auto|].
  destruct (run_validation f (d !! field_name f)) as [x|m|] eqn:R;
    intros H; apply IH in H as [H|(g & Hg & Hn & Hv)];
    try (right; exists g; rewrite elem_of_cons; now auto);
    try (now left).
  destruct (decide (field_name f = k)) as [<-|NE].
  - rewrite lookup_insert_eq in H. injection H as <-.
    right. exists f. rewrite elem_of_cons. auto.
  - rewrite lookup_insert_ne in H by done. now left.
Qed.

(** X14: a created inquiry holds values of declared serializer fields
    only: every column it carries is a declared field that was present
    in the submitted data and whose own conversion produced the stored
    value; keys of the data that the serializer does not declare never
    reach the record. *)
Theorem inquiry_holds_declared_fields_only cfg now request st resp st' i :
  inquire cfg now request st = (inr resp, st') ->
  payload resp = PInquiry i ->
  forall k v,
    inquiry_fields i !! k = Some v ->
    exists f raw,
      f ∈ PropertyInquirySerializer cfg /\ field_name f = k /\
      data request !! k = Some raw /\ to_internal_value f raw = inr v.
Proof.
  rewrite inquire_unfold.
  destruct (resolve cfg request (properties st)) as [e|obj]; [discriminate|].
  cbv zeta. destruct (is_valid _); intros [= <- <-]; cbn [payload];
    [|discriminate].
  intros [= <-] k v. cbn [inquiry_fields]. intros H.
  apply lookup_delete_Some in H as [_ H].
  unfold make_serializer in H.
  pose proof (validate_fields_value (PropertyInquirySerializer cfg)
                (data request) ∅ ∅ k v) as L.
  destruct (validate_fields _ _ ∅ ∅) as [e' v']. cbn [validated_data snd] in *.
  destruct (L H) as [L0|(f & Hf & Hn & Hv)]; [now rewrite lookup_empty in L0|].
  unfold run_validation in Hv.
  destruct (data request !! k) as [raw|]; [|destruct (required f); discriminate].
  destruct (to_internal_value f raw) as [|x] eqn:T; [discriminate|].
  injection Hv as <-. eauto 10.
Qed.

(** ** Ordering: only listed fields are ever sorted by *)

Definition allowed_order_terms : list string :=
  ["price"; "created_at"; "rating"; "area";
   "-price"; "-created_at"; "-rating"; "-area"].

Lemma term_valid_allowed term :
  term_valid ordering_fields term = true -> term ∈ allowed_order_terms.
Proof.
  unfold term_valid, ordering_fields, allowed_order_terms.
  rewrite bool_decide_eq_true.
  destruct term as [|c rest]; cbn [Py.startswith_dash Py.tail1].
  - rewrite !elem_of_cons, elem_of_nil. intuition discriminate.
  - destruct (Ascii.eqb c "-") eqn:D.
    + apply Ascii.eqb_eq in D. subst c.
      rewrite !elem_of_cons, elem_of_nil.
      intros [->|[->|[->|[->|[]]]]]; auto 10.
    + rewrite !elem_of_cons, elem_of_nil.
      intros [->|[->|[->|[->|[]]]]]; auto 10.
Qed.

(** X15: whatever the ordering parameter holds, the ordering handed to
    the database is never empty and consists only of the four listed
    fields, each plain or with a leading dash: a caller cannot make the
    search sort by any other column. *)
Theorem get_ordering_whitelisted request :
  get_ordering ordering_fields ordering (query_params request) <> [] /\
  Forall (fun term => term ∈ allowed_order_terms)
    (get_ordering ordering_fields ordering (query_params request)).
Proof.
  rewrite get_ordering_terms.
  destruct (remove_invalid_fields ordering_fields (ordering_terms request))
    as [|t kept] eqn:K.
  - split; [discriminate|].
    apply Forall_cons. split; [|constructor].
    unfold allowed_order_terms. rewrite !elem_of_cons. auto 10.
  - split; [discriminate|]. rewrite <- K.
    apply Forall_forall. intros term Hin. apply term_valid_allowed.
    unfold remove_invalid_fields in Hin.
    now apply filter_elem_of in Hin as [_ Hv].
Qed.

(** ** The forwarded-for header *)

Lemma first_address_of_prefix a rest :
  Py.contains "," a = false ->
  first_address (a ++ String "," rest)%string = a /\ first_address a = a.
Proof.
  induction a as [|c a IH]; intros H.
  - split; reflexivity.
  - cbn [Py.contains] in H. apply orb_false_iff in H as [Hc Ha].
    destruct (IH Ha) as [IH1 IH2].
    change (String c a ++ String "," rest)%string
      with (String c (a ++ String "," rest)%string).
    cbn [first_address]. now rewrite Hc, IH1, IH2.
Qed.

(** X16: the forwarded-for header decides the attribution address, not
    the connection: for any non-empty, comma-free address [a], a request
    whose header is [a] alone or [a] followed by a comma and anything is
    attributed to [a], whatever its REMOTE_ADDR is or whether it has one. *)
Theorem forwarded_header_overrides_connection request a rest :
  a <> "" ->
  Py.contains "," a = false ->
  META request !! "HTTP_X_FORWARDED_FOR" = Some a \/
  META request !! "HTTP_X_FORWARDED_FOR"
  = Some (a ++ String "," rest)%string ->
  get_client_ip request = Some a.
Proof.
  intros NE NC H. destruct (first_address_of_prefix a rest NC) as [F1 F2].
  unfold get_client_ip.
  destruct a as [|c a]; [congruence|].
  destruct H as [-> | ->].
  - cbn [Py.truthy default]. etransitivity; [apply split_first|].
    f_equal. exact F2.
  - change (String c a ++ String "," rest)%string
      with (String c (a ++ String "," rest)%string) in *.
    cbn [Py.truthy default]. etransitivity; [apply split_first|].
    f_equal. exact F1.
Qed.

(** ** Interleaved view tracking without the uniqueness declaration *)

Lemma run_cons cfg i schedule sys :
  run cfg (i :: schedule) sys = run cfg schedule (system_step cfg i sys).
Proof. reflexivity. Qed.

Lemma system_step_eval cfg i sys r pc pc' st' :
  callers sys !! i = Some (r, pc) ->
  track_view_step cfg r pc (store sys) = (pc', st') ->
  system_step cfg i sys
  = {| store := st'; callers := <[i := (r, pc')]> (callers sys) |}.
Proof. unfold system_step. now intros -> ->. Qed.

Lemma step_get_object cfg r st obj :
  resolve cfg r (properties st) = inr obj ->
  track_view_step cfg r AtGetObject st
  = (AtGet (id obj) (get_client_ip r)
       (default "" (META r !! "HTTP_USER_AGENT")), st).
Proof. intros R. cbn [track_view_step]. now rewrite get_object_pure, R. Qed.

Lemma step_get_absent cfg r pk ip ua st :
  rows_for pk ip st = [] ->
  track_view_step cfg r (AtGet pk (Some ip) ua) st
  = (AtCreate pk (Some ip) ua, st).
Proof.
  intros F. cbn [track_view_step]. now rewrite views_get_rows, F.
Qed.

Lemma step_create_undeclared cfg r pk ip ua st :
  unique_together cfg = false ->
  track_view_step cfg r (AtCreate pk (Some ip) ua) st
  = (Finished (inr view_tracked),
     add_view {| view_property := pk; ip_address := ip; user_agent := ua |} st).
Proof.
  intros U. cbn [track_view_step].
  unfold views_create, bind, get_store, raise, ret, put_store.
  now rewrite U.
Qed.

(** X17: the uniqueness declaration is what the one-row guarantee under
    concurrency rests on.  Without it, when two callers view the same
    listing from the same address and each reads before the other
    writes, both are acknowledged and the pair ends up with two rows. *)
Theorem race_without_declaration cfg st pk ip r1 r2 :
  unique_together cfg = false ->
  rows_for pk ip st = [] ->
  views_listing_from cfg st pk ip r1 ->
  views_listing_from cfg st pk ip r2 ->
  let sys := run cfg [0; 1; 0; 1; 0; 1]%nat (start st [r1; r2]) in
  callers sys = [(r1, Finished (inr view_tracked));
                 (r2, Finished (inr view_tracked))] /\
  rows_for pk ip (store sys) = [view_row pk ip r1; view_row pk ip r2].
Proof.
  intros U F [(o1 & G1 & I1) A1] [(o2 & G2 & I2) A2].
  rewrite get_object_pure in G1, G2. injection G1 as G1. injection G2 as G2.
  cbv zeta. unfold start. cbn [map].
  rewrite run_cons.
  erewrite system_step_eval; [|reflexivity|apply (step_get_object _ _ _ _ G1)].
  rewrite I1, A1. cbn [callers store].
  rewrite run_cons.
  erewrite system_step_eval; [|reflexivity|apply (step_get_object _ _ _ _ G2)].
  rewrite I2, A2. cbn [callers store].
  rewrite run_cons.
  erewrite system_step_eval; [|reflexivity|apply (step_get_absent _ _ _ _ _ _ F)].
  cbn [callers store].
  rewrite run_cons.
  erewrite system_step_eval; [|reflexivity|apply (step_get_absent _ _ _ _ _ _ F)].
  cbn [callers store].
  rewrite run_cons.
  erewrite system_step_eval;
    [|reflexivity|apply (step_create_undeclared _ _ _ _ _ _ U)].
  cbn [callers store].
  rewrite run_cons.
  erewrite system_step_eval;
    [|reflexivity|apply (step_create_undeclared _ _ _ _ _ _ U)].
  cbn [callers store run foldl].
  split; [reflexivity|].
  unfold view_row. now rewrite !rows_for_add_view, F.
Qed.

(** * The user view set ([users/views.py], [users/models.py]) *)

Module Users.

(** [CustomUser]: the columns the views and the permission touch. *)
Record CustomUser := {
  pk : Z;
  username : string;
  user_type : string;
  phone_number : string;
  is_verified : bool;
}.

Definition USER_TYPE_CHOICES : list (string * string) :=
  [("client", "Client"); ("agent", "Agent"); ("admin", "Admin")].

(** [request.user]: the anonymous user, or the user of the session. *)
Inductive Requester :=
| AnonymousUser
| LoggedIn (u : CustomUser).

Record Request := {
  method : string;
  user : Requester;
  data : gmap string string;
}.

Definition SAFE_METHODS : list string := ["GET"; "HEAD"; "OPTIONS"].

(** [obj == request.user]: two saved model instances are equal when
    their primary keys are; a model instance never equals the anonymous
    user. *)
Definition eq_user (obj : CustomUser) (u : Requester) : bool :=
  match u with
  | LoggedIn v => (pk obj =? pk v)%Z
  | AnonymousUser => false
  end.

(** [IsOwnerOrReadOnly.has_object_permission] *)
Definition has_object_permission (request : Request) (obj : CustomUser)
  : bool :=
  if bool_decide (method request ∈ SAFE_METHODS) then true
  else eq_user obj (user request).

Inductive Permission :=
| AllowAny
| IsOwnerOrReadOnly.

Inductive SerializerClass :=
| CustomUserSerializer
| UserRegistrationSerializer.

(** The view's [permission_classes] attribute: the class attribute, or
    for the login action the list its decorator passes. *)
Definition permission_classes (action : string) : list Permission :=
  if String.eqb action "login" then [AllowAny] else [IsOwnerOrReadOnly].

Definition get_serializer_class (action : string) : SerializerClass :=
  if String.eqb action "create" then UserRegistrationSerializer
  else CustomUserSerializer.

Definition get_permissions (action : string) : list Permission :=
  if String.eqb action "create" then [AllowAny]
  else permission_classes action.

(** The request-level check every permission class has: [AllowAny]
    answers yes, and [IsOwnerOrReadOnly] inherits the base class's yes. *)
Definition permission_has_permission (p : Permission) (request : Request)
  : bool :=
  match p with
  | AllowAny => true
  | IsOwnerOrReadOnly => true
  end.

Definition permission_has_object_permission (p : Permission)
  (request : Request) (obj : CustomUser) : bool :=
  match p with
  | AllowAny => true
  | IsOwnerOrReadOnly => has_object_permission request obj
  end.

(** [APIView.check_permissions] and [check_object_permissions]: every
    permission of the action must agree. *)
Definition check_permissions (action : string) (request : Request) : bool :=
  forallb (fun p => permission_has_permission p request)
    (get_permissions action).

Definition check_object_permissions (action : string) (request : Request)
  (obj : CustomUser) : bool :=
  forallb (fun p => permission_has_object_permission p request obj)
    (get_permissions action).

Inductive Body :=
| LoginSuccess (user_data : gmap string string)
| Status (s : string)
| Error (e : string)
| UserData (d : gmap string string).

Record Response := {
  body : Body;
  status : Z;
}.

Definition HTTP_200_OK : Z := 200.
Definition HTTP_401_UNAUTHORIZED : Z := 401.

(** The calls a client makes to the session actions. *)
Inductive Call :=
| CallLogin (credentials : gmap string string)
| CallLogout
| CallProfile.

Section Session.

(** The authentication backend and the user serializer, both declared
    outside the views. *)
Variable authenticate : option string -> option string -> option CustomUser.
Variable serializer_data : Requester -> gmap string string.

(** The three session actions; the second component is [request.user]
    as the session carries it to the next request. *)
Definition login (request : Request) : Response * Requester :=
  let username := data request !! "username" in
  let password := data request !! "password" in
  match authenticate username password with
  | Some u =>
      ({| body := LoginSuccess (serializer_data (LoggedIn u));
          status := HTTP_200_OK |}, LoggedIn u)
  | None =>
      ({| body := Error "Invalid credentials";
          status := HTTP_401_UNAUTHORIZED |}, user request)
  end.

Definition logout (request : Request) : Response * Requester :=
  ({| body := Status "success"; status := HTTP_200_OK |}, AnonymousUser).

Definition profile (request : Request) : Response * Requester :=
  ({| body := UserData (serializer_data (user request));
      status := HTTP_200_OK |}, user request).

Definition handle (c : Call) (session : Requester) : Response * Requester :=
  match c with
  | CallLogin credentials =>
      login {| method := "POST"; user := session; data := credentials |}
  | CallLogout => logout {| method := "POST"; user := session; data := ∅ |}
  | CallProfile => profile {| method := "GET"; user := session; data := ∅ |}
  end.

(** The session after a sequence of calls. *)
Definition session_after (calls : list Call) (session : Requester)
  : Requester :=
  foldl (fun s c => (handle c s).2) session calls.

(** Whom a call leaves in the session if it decides that at all: a
    logout leaves nobody, a login that authenticates leaves its user. *)
Definition decides (c : Call) : option Requester :=
  match c with
  | CallLogin credentials =>
      LoggedIn <$>
        authenticate (credentials !! "username") (credentials !! "password")
  | CallLogout => Some AnonymousUser
  | CallProfile => None
  end.

(** The last call of the sequence that decides, if any. *)
Fixpoint last_decision (calls : list Call) : option Requester :=
  match calls with
  | [] => None
  | c :: rest =>
      match last_decision rest with
      | Some s => Some s
      | None => decides c
      end
  end.

Lemma handle_decides c session :
  (handle c session).2 = default session (decides c).
Proof.
  destruct c as [credentials| |]; cbn; try reflexivity.
  unfold login. cbn.
  destruct (authenticate _ _); reflexivity.
Qed.

Lemma session_after_last_decision calls session :
  session_after calls session = default session (last_decision calls).
Proof.
  unfold session_after. revert session.
  induction calls as [|c rest IH]; intros session; [reflexivity|].
  cbn [foldl last_decision]. rewrite IH, handle_decides.
  destruct (last_decision rest); reflexivity.
Qed.

(** X18: the session follows the last deciding call.  After any sequence
    of login, logout and profile calls, the session user is the user of
    the last login that authenticated if no logout came after it, nobody
    if a logout came last, and the user the sequence started with if it
    had neither; failed logins and profile calls change nothing. *)
Theorem session_follows_last_decision calls session :
  session_after calls session = default session (last_decision calls) /\
  (forall credentials,
     authenticate (credentials !! "username") (credentials !! "password")
     = None ->
     session_after (calls ++ [CallLogin credentials]) session
     = session_after calls session) /\
  session_after (calls ++ [CallLogout]) session = AnonymousUser.
Proof.
  split; [apply session_after_last_decision|]. split.
  - intros credentials F. unfold session_after. rewrite foldl_app.
    cbn [foldl]. rewrite handle_decides. cbn [decides]. now rewrite F.
  - unfold session_after. rewrite foldl_app. reflexivity.
Qed.

End Session.

Lemma has_object_permission_spec request obj :
  has_object_permission request obj = true <->
  method request ∈ SAFE_METHODS \/
  exists u, user request = LoggedIn u /\ pk u = pk obj.
Proof.
  unfold has_object_permission, eq_user.
  destruct (bool_decide (method request ∈ SAFE_METHODS)) eqn:S.
  - apply bool_decide_eq_true in S. tauto.
  - apply bool_decide_eq_false in S. split.
    + destruct (user request) as [|u]; [discriminate|].
      rewrite Z.eqb_eq. eauto.
    + intros [H|(u & -> & E)]; [contradiction|]. now apply Z.eqb_eq.
Qed.

(** X19: who may do what on the user view set.  No action demands
    anything of the request itself, so every action is reachable without
    logging in.  The object check of [create] and [login] always passes;
    for every other action it passes exactly when the method is GET, HEAD
    or OPTIONS or the requester is logged in as the very user the object
    is: nobody else, and nobody anonymous, can write a user's record. *)
Theorem owner_or_read_only_policy action request obj :
  check_permissions action request = true /\
  (check_object_permissions action request obj = true <->
   action = "create" \/ action = "login" \/
   method request ∈ SAFE_METHODS \/
   exists u, user request = LoggedIn u /\ pk u = pk obj).
Proof.
  unfold check_permissions, check_object_permissions, get_permissions,
    permission_classes.
  destruct (String.eqb action "create") eqn:C.
  { apply String.eqb_eq in C. cbn. split; [reflexivity|tauto]. }
  destruct (String.eqb action "login") eqn:L.
  { apply String.eqb_eq in L. cbn. split; [reflexivity|tauto]. }
  apply String.eqb_neq in C, L. cbn. split; [reflexivity|].
  rewrite andb_true_r, has_object_permission_spec. tauto.
Qed.

End Users.

(** ** A caller running alone *)

Lemma finished_is_final cfg request r st k :
  Nat.iter k
    (fun '(pc, st) => track_view_step cfg request pc st)
    (Finished r, st)
  = (Finished r, st).
Proof.
  induction k as [|k IH]; [reflexivity|].
  rewrite Nat.iter_succ, IH. reflexivity.
Qed.

(** X20: the program points cut [track_view] at its store accesses and
    add or lose nothing: a caller that runs alone for four steps or more
    finishes with exactly the result and the store of [track_view]. *)
Theorem solo_caller_is_track_view cfg request st n :
  4 <= n ->
  Nat.iter n
    (fun '(pc, st) => track_view_step cfg request pc st)
    (AtGetObject, st)
  = (Finished (track_view cfg request st).1, (track_view cfg request st).2).
Proof.
  intros Hn. replace n with ((n - 4) + 4)%nat by lia.
  rewrite Nat.iter_add, track_view_steps. apply finished_is_final.
Qed.

(** ** Instances of the further properties *)

Lemma dropping_a_bound_widens_witness :
  let request := GET [("min_price", "200000")] in
  "min_price" ∈ range_params /\
  get_queryset Sample.cfg request catalog = (inr [P101], catalog) /\
  exists qs',
    get_queryset Sample.cfg (without_param "min_price" request) catalog
    = (inr qs', catalog) /\
    [P101] `sublist_of` qs'.
Proof.
  intros request.
  assert ("min_price" ∈ range_params) as H1 by apply list_elem_of_here.
  assert (get_queryset Sample.cfg request catalog = (inr [P101], catalog))
    as H2 by (vm_compute; reflexivity).
  split; [exact H1|]. split; [exact H2|].
  exact (dropping_a_bound_widens Sample.cfg request catalog "min_price"
           [P101] H1 H2).
Defined.

Lemma inverted_range_returns_nothing_witness :
  let request := GET [("min_price", "300000"); ("max_price", "200000")] in
  inverted_range (price_to_python Sample.cfg) request "min_price" "max_price"
  /\ exists qs,
       get_queryset Sample.cfg request catalog = (inr qs, catalog) /\
       qs = [].
Proof.
  intros request.
  assert (inverted_range (price_to_python Sample.cfg) request
            "min_price" "max_price") as H1.
  { exists "300000", "200000", (inject_Z 300000), (inject_Z 200000).
    repeat split; try (vm_compute; reflexivity); discriminate. }
  assert (get_queryset Sample.cfg request catalog = (inr [], catalog)) as H2
    by (vm_compute; reflexivity).
  split; [exact H1|]. exists []. split; [exact H2|].
  exact (inverted_range_returns_nothing Sample.cfg request catalog []
           (or_introl H1) H2).
Defined.

Lemma get_object_within_search_results_witness :
  let request := Sample.viewer 101 "Firefox" in
  get_object Sample.cfg request catalog = (inr P101, catalog) /\
  exists results,
    list_action Sample.cfg request catalog = (inr results, catalog) /\
    P101 ∈ results.
Proof.
  intros request.
  assert (get_object Sample.cfg request catalog = (inr P101, catalog)) as H
    by (vm_compute; reflexivity).
  split; [exact H|].
  apply (get_object_within_search_results Sample.cfg request catalog P101
           catalog H).
Defined.

Lemma engagement_honours_range_filters_witness :
  let request :=
    {| kwargs_pk := 101; query_params := {[ "max_price" := "100000" ]};
       META := {[ "REMOTE_ADDR" := "10.0.0.5" ]}; data := ∅ |} in
  NoDup (id <$> properties catalog) /\
  P101 ∈ properties catalog /\
  ~ in_bounds Sample.cfg request P101 /\
  list_action Sample.cfg request catalog = (inr [], catalog) /\
  track_view Sample.cfg request catalog = (inl Http404, catalog) /\
  inquire Sample.cfg 77 request catalog = (inl Http404, catalog).
Proof.
  intros request.
  assert (NoDup (id <$> properties catalog)) as H1.
  { apply NoDup_ListNoDup. vm_compute.
    repeat (constructor; [vm_compute; intuition discriminate|]).
    constructor. }
  assert (P101 ∈ properties catalog) as H2 by apply list_elem_of_here.
  assert (~ in_bounds Sample.cfg request P101) as H3.
  { intros (_ & B & _). destruct (B "100000") as (v & E & L).
    - split; [vm_compute; reflexivity|discriminate].
    - vm_compute in E. injection E as <-. vm_compute in L. now apply L. }
  assert (list_action Sample.cfg request catalog = (inr [], catalog)) as H4
    by (vm_compute; reflexivity).
  split; [exact H1|]. split; [exact H2|]. split; [exact H3|].
  split; [exact H4|].
  exact (engagement_honours_range_filters Sample.cfg 77 request catalog P101
           [] H1 H2 eq_refl H3 H4).
Defined.

Lemma serving_track_view_keeps_one_row_per_visitor_witness :
  let requests := [Sample.viewer 101 "Firefox"; Sample.viewer 101 "curl";
                   Sample.proxied_viewer 103 "Safari"] in
  one_row_per_visitor catalog /\
  one_row_per_visitor (serve (track_view Sample.cfg) requests catalog).2.
Proof.
  intros requests.
  assert (one_row_per_visitor catalog) as H by (intros pk ip; cbn; lia).
  split; [exact H|].
  exact (serving_track_view_keeps_one_row_per_visitor Sample.cfg requests
           catalog H).
Defined.

Lemma track_view_leaves_other_pairs_witness :
  let request := Sample.viewer 101 "Firefox" in
  (kwargs_pk request, get_client_ip request) <> (103%Z, Some "10.0.0.5") /\
  rows_for 103 "10.0.0.5" (track_view Sample.cfg request catalog).2
  = rows_for 103 "10.0.0.5" catalog.
Proof.
  intros request.
  assert ((kwargs_pk request, get_client_ip request)
          <> (103%Z, Some "10.0.0.5")) as H by (vm_compute; discriminate).
  split; [exact H|].
  exact (track_view_leaves_other_pairs Sample.cfg request catalog 103
           "10.0.0.5" H).
Defined.

Lemma track_view_raises_on_duplicate_rows_witness :
  let v := {| view_property := 101; ip_address := "10.0.0.5";
              user_agent := "Firefox" |} in
  let st := add_view v (add_view v catalog) in
  let request := Sample.viewer 101 "curl" in
  views_listing_from Sample.cfg st 101 "10.0.0.5" request /\
  rows_for 101 "10.0.0.5" st = [v; v] /\
  track_view Sample.cfg request st = (inl MultipleObjectsReturned, st).
Proof.
  intros v st request.
  assert (views_listing_from Sample.cfg st 101 "10.0.0.5" request) as H1
    by (split; [exists P101; split|]; vm_compute; reflexivity).
  assert (rows_for 101 "10.0.0.5" st = [v; v]) as H2 by reflexivity.
  split; [exact H1|]. split; [exact H2|].
  exact (track_view_raises_on_duplicate_rows Sample.cfg request st 101
           "10.0.0.5" v v [] H1 H2).
Defined.

Lemma distinct_visitors_each_get_a_row_witness :
  let direct := Sample.viewer 101 "Firefox" in
  let proxied := Sample.proxied_viewer 101 "curl" in
  let other :=
    POST 101 [("REMOTE_ADDR", "10.0.0.7"); ("HTTP_USER_AGENT", "Safari")] [] in
  let visits := [(direct, "10.0.0.5"); (other, "10.0.0.7")] in
  Forall (fun v => views_listing_from Sample.cfg catalog 101 v.2 v.1) visits /\
  NoDup visits.*2 /\
  Forall (fun ip => rows_for 101 ip catalog = []) visits.*2 /\
  serve (track_view Sample.cfg) visits.*1 catalog
  = (replicate 2 (inr view_tracked),
     add_views [view_row 101 "10.0.0.5" direct; view_row 101 "10.0.0.7" other]
       catalog).
Proof.
  intros direct proxied other visits.
  assert (Forall (fun v => views_listing_from Sample.cfg catalog 101 v.2 v.1)
            visits) as H1.
  { repeat (apply Forall_cons; split); [..|constructor];
      (split; [exists P101; split|]; vm_compute; reflexivity). }
  assert (NoDup visits.*2) as H2.
  { apply NoDup_ListNoDup. cbn.
    repeat (constructor; [cbn; intuition discriminate|]). constructor. }
  assert (Forall (fun ip => rows_for 101 ip catalog = []) visits.*2) as H3
    by (repeat (apply Forall_cons; split); [..|constructor]; reflexivity).
  split; [exact H1|]. split; [exact H2|]. split; [exact H3|].
  exact (distinct_visitors_each_get_a_row Sample.cfg catalog 101 visits
           H1 H2 H3).
Defined.

Lemma repeated_inquiry_creates_each_time_witness :
  let r := serve (inquire Sample.cfg 77) (replicate 3 Sample.full_contact)
             catalog in
  get_object Sample.cfg Sample.full_contact catalog = (inr P101, catalog) /\
  Forall (fun f => ~ offending f (data Sample.full_contact))
    (PropertyInquirySerializer Sample.cfg) /\
  length (inquiries r.2) = 3%nat /\
  inquiry_seq r.2 = 3%Z.
Proof.
  intros r.
  assert (get_object Sample.cfg Sample.full_contact catalog
          = (inr P101, catalog)) as H1 by (vm_compute; reflexivity).
  assert (Forall (fun f => ~ offending f (data Sample.full_contact))
            (PropertyInquirySerializer Sample.cfg)) as H2
    by (repeat (apply Forall_cons; split); [..|constructor]; field_satisfied).
  split; [exact H1|]. split; [exact H2|].
  destruct (repeated_inquiry_creates_each_time Sample.cfg 77
              Sample.full_contact catalog P101 3 H1 H2) as (_ & _ & N & S).
  split; [exact N|exact S].
Defined.

Lemma inquiry_holds_declared_fields_only_witness :
  let request :=
    POST 101 [("REMOTE_ADDR", "10.0.0.5")]
      [("name", "Ann"); ("email", "ann@example.org");
       ("message", "Is it still free?"); ("property", "103");
       ("created_at", "0")] in
  exists resp st' i,
    inquire Sample.cfg 77 request catalog = (inr resp, st') /\
    payload resp = PInquiry i /\
    inquiry_property i = 101%Z /\
    inquiry_fields i !! "property" = None /\
    forall k v,
      inquiry_fields i !! k = Some v ->
      exists f raw,
        f ∈ PropertyInquirySerializer Sample.cfg /\ field_name f = k /\
        data request !! k = Some raw /\ to_internal_value f raw = inr v.
Proof.
  intros request.
  destruct (inquire Sample.cfg 77 request catalog) as [[e|resp] st'] eqn:E;
    [vm_compute in E; discriminate E|].
  destruct (payload resp) as [d|i|errs] eqn:P;
    [vm_compute in E; injection E as <- _; discriminate P| |
     vm_compute in E; injection E as <- _; discriminate P].
  exists resp, st', i. split; [reflexivity|]. split; [exact P|].
  split; [vm_compute in E; injection E as <- _; injection P as <-; reflexivity|].
  split; [vm_compute in E; injection E as <- _; injection P as <-; reflexivity|].
  exact (inquiry_holds_declared_fields_only Sample.cfg 77 request catalog
           resp st' i E P).
Defined.

Lemma forwarded_header_overrides_connection_witness :
  let request := Sample.proxied_viewer 101 "curl" in
  "10.0.0.5" <> "" /\
  Py.contains "," "10.0.0.5" = false /\
  META request !! "HTTP_X_FORWARDED_FOR" = Some "10.0.0.5,172.16.0.1" /\
  META request !! "REMOTE_ADDR" = Some "192.168.1.1" /\
  get_client_ip request = Some "10.0.0.5".
Proof.
  intros request.
  assert (META request !! "HTTP_X_FORWARDED_FOR"
          = Some ("10.0.0.5" ++ String "," "172.16.0.1")%string) as H
    by (vm_compute; reflexivity).
  split; [discriminate|]. split; [reflexivity|].
  split; [exact H|]. split; [vm_compute; reflexivity|].
  exact (forwarded_header_overrides_connection request "10.0.0.5"
           "172.16.0.1" ltac:(discriminate) eq_refl (or_intror H)).
Defined.

Lemma race_without_declaration_witness :
  let r1 := Sample.viewer 101 "Firefox" in
  let r2 := Sample.viewer 101 "curl" in
  let sys :=
    run Sample.cfg_no_unique [0; 1; 0; 1; 0; 1]%nat (start catalog [r1; r2]) in
  unique_together Sample.cfg_no_unique = false /\
  rows_for 101 "10.0.0.5" catalog = [] /\
  views_listing_from Sample.cfg_no_unique catalog 101 "10.0.0.5" r1 /\
  views_listing_from Sample.cfg_no_unique catalog 101 "10.0.0.5" r2 /\
  rows_for 101 "10.0.0.5" (store sys)
  = [view_row 101 "10.0.0.5" r1; view_row 101 "10.0.0.5" r2].
Proof.
  intros r1 r2 sys.
  assert (views_listing_from Sample.cfg_no_unique catalog 101 "10.0.0.5" r1)
    as H1 by (split; [exists P101; split|]; vm_compute; reflexivity).
  assert (views_listing_from Sample.cfg_no_unique catalog 101 "10.0.0.5" r2)
    as H2 by (split; [exists P101; split|]; vm_compute; reflexivity).
  split; [reflexivity|]. split; [reflexivity|].
  split; [exact H1|]. split; [exact H2|].
  exact (proj2 (race_without_declaration Sample.cfg_no_unique catalog 101
                  "10.0.0.5" r1 r2 eq_refl eq_refl H1 H2)).
Defined.

Lemma solo_caller_is_track_view_witness :
  let request := Sample.viewer 101 "Firefox" in
  4 <= 6 /\
  Nat.iter 6
    (fun '(pc, st) => track_view_step Sample.cfg request pc st)
    (AtGetObject, catalog)
  = (Finished (track_view Sample.cfg request catalog).1,
     (track_view Sample.cfg request catalog).2).
Proof.
  intros request.
  assert (4 <= 6) as H by lia.
  split; [exact H|].
  exact (solo_caller_is_track_view Sample.cfg request catalog 6 H).
Defined.
